(** * pdsql.util: a shallow embedding of [compare_dfs], [create_engine]
    and [save_df], and the properties of the specification checked on it.

    Source: [src/pdsql/util.py].

    The three functions are written against pandas, numpy, sqlalchemy and
    the Python standard library.  The embedding follows the source line by
    line and keeps its local names; the library calls it makes are given a
    small executable model:

    - a [DataFrame] is an ordered list of labelled columns, each a [Series]
      with a dtype and a list of cells (the row labels of pandas play no
      part in the source and are left out);
    - cells are Python scalars: [None], float64 (Rocq's binary64 primitive
      floats, so [nan], the infinities and rounding are the real ones),
      int64, [str] and [bool];
    - [pd.merge(..., how='outer', indicator=True)] is modelled through the
      join indexer it computes (pairs of optional row positions), with the
      dtype promotion pandas applies to a side that receives missing rows
      (int64 to float64, bool to object); the order in which pandas lists
      the joined rows changes with its version, so it is a parameter
      ([RowOrder]) about which only "it is a permutation" is known;
    - exceptions are values of [exn]; [OutsideModel] marks the few inputs
      for which the embedding does not say what the libraries do. *)
From Stdlib Require Import List String Ascii ZArith Bool Floats Lia Arith.
From Stdlib Require Import Permutation.
From Stdlib Require Uint63.
#[local] Set Warnings "-inexact-float".
Import ListNotations.
Local Open Scope string_scope.
Local Open Scope list_scope.

(* ================================================================= *)
(** ** Exceptions and results *)
Inductive exn : Type :=
| ValueError (msg : string)
| KeyError (label : string)
| AttributeError (msg : string)
| TypeError (msg : string)
| UnboundLocalError (name : string)
| ImportError (msg : string)
| OperationalError (msg : string)
| OutsideModel (what : string).

Inductive result (A : Type) : Type :=
| Ok (a : A)
| Raise (e : exn).

Arguments Ok {A} a.

Arguments Raise {A} e.

Definition bind {A B : Type} (m : result A) (k : A -> result B) : result B :=
  match m with
  | Ok a => k a
  | Raise e => Raise e
  end.

Notation "x <- m ;; k" := (bind m (fun x => k))
  (at level 61, m at next level, right associativity).

Definition is_ok {A : Type} (r : result A) : bool :=
  match r with Ok _ => true | Raise _ => false end.

(* ================================================================= *)
(** ** Python strings and lists *)
(** [sub in s] on Python strings: [sub] occurs somewhere in [s]. *)
Fixpoint contains (sub s : string) : bool :=
  String.prefix sub s ||
  match s with
  | EmptyString => false
  | String _ s' => contains sub s'
  end.

(** [s[:-2]]: [s] without its last two characters (empty when [s] has at
    most two). *)
Definition drop_last2 (s : string) : string :=
  String.substring 0 (String.length s - 2) s.

(** [x in l] on a list of strings. *)
Definition mem (x : string) (l : list string) : bool :=
  existsb (String.eqb x) l.

(** A Python [dict] with string keys, in insertion order. *)
Definition dict (V : Type) : Type := list (string * V).

Fixpoint dict_set {V : Type} (d : dict V) (k : string) (v : V) : dict V :=
  match d with
  | [] => [(k, v)]
  | (k', v') :: d' =>
      if String.eqb k' k then (k', v) :: d' else (k', v') :: dict_set d' k v
  end.

Fixpoint dict_get {V : Type} (d : dict V) (k : string) : option V :=
  match d with
  | [] => None
  | (k', v) :: d' => if String.eqb k' k then Some v else dict_get d' k
  end.

Definition dict_keys {V : Type} (d : dict V) : list string := map fst d.

(** Element-wise combination of two lists (numpy broadcasting plays no
    part: the source only combines columns of one frame). *)
Fixpoint map2 {A B C : Type} (f : A -> B -> C) (l1 : list A) (l2 : list B)
  : list C :=
  match l1, l2 with
  | a :: l1', b :: l2' => f a b :: map2 f l1' l2'
  | _, _ => []
  end.

Fixpoint all2 {A B : Type} (f : A -> B -> bool) (l1 : list A) (l2 : list B)
  : bool :=
  match l1, l2 with
  | [], [] => true
  | a :: l1', b :: l2' => f a b && all2 f l1' l2'
  | _, _ => false
  end.

(** Rows of [l] kept by a boolean mask. *)
Fixpoint mask_filter {A : Type} (mask : list bool) (l : list A) : list A :=
  match mask, l with
  | b :: mask', a :: l' =>
      if b then a :: mask_filter mask' l' else mask_filter mask' l'
  | _, _ => []
  end.

(* ================================================================= *)
(** ** Cells, dtypes and numpy's element-wise operations *)
Inductive dtype : Type := Float64 | Int64 | BoolT | Object.

Definition dtype_name (d : dtype) : string :=
  match d with
  | Float64 => "float64"
  | Int64 => "int64"
  | BoolT => "bool"
  | Object => "object"
  end.

Inductive cell : Type :=
| CNone
| CFloat (f : float)
| CInt (z : Z)
| CStr (s : string)
| CBool (b : bool).

(** The float64 nearest to an integer (round to nearest, ties to even):
    what numpy computes when it casts int64 to float64. *)
Definition Z2float (z : Z) : float :=
  SF2Prim (binary_normalize prec emax z 0 false).

(** [pd.isnull] on a scalar. *)
Definition isnull (c : cell) : bool :=
  match c with
  | CNone => true
  | CFloat f => is_nan f
  | _ => false
  end.

Definition notnull (c : cell) : bool := negb (isnull c).

(** The cells a column of a given dtype can hold.  An object column is
    taken to hold text, booleans and nulls. *)
Definition cell_ok (d : dtype) (c : cell) : bool :=
  match d, c with
  | Float64, CFloat _ => true
  | Int64, CInt _ => true
  | BoolT, CBool _ => true
  | Object, CStr _ => true
  | Object, CBool _ => true
  | Object, CNone => true
  | Object, CFloat f => is_nan f
  | _, _ => false
  end.

(** numpy's default tolerances of [isclose]. *)
Definition rtol : float := 1e-05%float.

Definition atol : float := 1e-08%float.

(** [np.isclose(x, y)] on two float64 scalars, with [equal_nan=False]:
    [less_equal(abs(x - y), atol + rtol * abs(y)) & isfinite(y) | (x == y)]. *)
Definition isclose (x y : float) : bool :=
  ((abs (x - y) <=? atol + rtol * abs y)%float && is_finite y)
  || (x =? y)%float.

(** The float64 value numpy reads a numeric cell as. *)
Definition to_float (c : cell) : float :=
  match c with
  | CFloat f => f
  | CInt z => Z2float z
  | CBool true => 1%float
  | CBool false => 0%float
  | _ => nan
  end.

Definition numeric_dtype (d : dtype) : bool :=
  match d with
  | Float64 | Int64 | BoolT => true
  | Object => false
  end.

(** [x == y] between two cells of compared columns: integer comparison
    between int64, float comparison as soon as one side is float64, and
    Python's [==] between the objects of object columns. *)
Definition cell_eq (x y : cell) : bool :=
  match x, y with
  | CInt a, CInt b => Z.eqb a b
  | CStr a, CStr b => String.eqb a b
  | CBool a, CBool b => Bool.eqb a b
  | CNone, CNone => true
  | CFloat _, (CFloat _ | CInt _ | CBool _)
  | (CInt _ | CBool _), CFloat _ => (to_float x =? to_float y)%float
  | CInt a, CBool b | CBool b, CInt a => Z.eqb a (if b then 1 else 0)
  | _, _ => false
  end.

Definition cell_ne (x y : cell) : bool := negb (cell_eq x y).

(** Equality of two join keys, as the hash tables of [pd.merge] see it:
    nulls match each other, floats match by value. *)
Definition key_eqb (x y : cell) : bool :=
  match x, y with
  | CInt a, CInt b => Z.eqb a b
  | CStr a, CStr b => String.eqb a b
  | CBool a, CBool b => Bool.eqb a b
  | CFloat a, CFloat b => (a =? b)%float || (is_nan a && is_nan b)
  | CNone, CNone => true
  | CNone, CFloat f | CFloat f, CNone => is_nan f
  | _, _ => false
  end.

(** What a missing entry does to a column: int64 becomes float64, bool
    becomes object, and the hole is filled with [nan]. *)
Definition promote_dtype (d : dtype) : dtype :=
  match d with
  | Int64 => Float64
  | BoolT => Object
  | d => d
  end.

Definition promote_cell (d : dtype) (c : cell) : cell :=
  match c with
  | CInt z => match d with Int64 => CFloat (Z2float z) | _ => c end
  | _ => c
  end.

(* ================================================================= *)
(** ** Series and DataFrames *)
Record Series : Type := mkSeries { dtype_of : dtype; values : list cell }.

Definition DataFrame : Type := list (string * Series).

(** [df.columns] *)
Definition columns (df : DataFrame) : list string := map fst df.

(** [len(df)], read off the first column. *)
Definition nrows (df : DataFrame) : nat :=
  match df with
  | [] => 0
  | (_, s) :: _ => List.length (values s)
  end.

(** The columns of [df] labelled [c] (pandas allows repeated labels). *)
Definition labelled (c : string) (df : DataFrame) : DataFrame :=
  filter (fun cs => String.eqb (fst cs) c) df.

(** [df[c]] for one label: a Series, or a DataFrame when the label is
    repeated. *)
Inductive item : Type :=
| ISeries (s : Series)
| IFrame (df : DataFrame).

Definition getitem (df : DataFrame) (c : string) : result item :=
  match labelled c df with
  | [] => Raise (KeyError c)
  | [(_, s)] => Ok (ISeries s)
  | more => Ok (IFrame more)
  end.

(** [x.dtype]: a DataFrame has [dtypes] but no [dtype]. *)
Definition item_dtype (x : item) : result dtype :=
  match x with
  | ISeries s => Ok (dtype_of s)
  | IFrame _ =>
      Raise (AttributeError "'DataFrame' object has no attribute 'dtype'")
  end.

(** [df[cols]] for a list of labels. *)
Fixpoint select (df : DataFrame) (cols : list string) : result DataFrame :=
  match cols with
  | [] => Ok []
  | c :: cols' =>
      match labelled c df with
      | [] => Raise (KeyError c)
      | found => rest <- select df cols' ;; Ok (found ++ rest)
      end
  end.

Definition mask_series (mask : list bool) (s : Series) : Series :=
  mkSeries (dtype_of s) (mask_filter mask (values s)).

(** [df[mask]] for a boolean mask over the rows. *)
Definition mask_rows (df : DataFrame) (mask : list bool) : DataFrame :=
  map (fun cs => (fst cs, mask_series mask (snd cs))) df.

(** [df.loc[mask, cols]] *)
Definition loc (df : DataFrame) (mask : list bool) (cols : list string)
  : result DataFrame :=
  sub <- select df cols ;; Ok (mask_rows sub mask).

(** [df.drop(label, axis=1)] *)
Definition drop (df : DataFrame) (label : string) : result DataFrame :=
  match labelled label df with
  | [] => Raise (KeyError label)
  | _ => Ok (filter (fun cs => negb (String.eqb (fst cs) label)) df)
  end.

(** [df[df.isnull()] = np.nan]: every null cell becomes [nan]; the other
    cells and the dtypes stay. *)
Definition null_to_nan (c : cell) : cell :=
  if isnull c then CFloat nan else c.

Definition setitem_isnull_nan (df : DataFrame) : DataFrame :=
  map (fun cs => (fst cs,
                  mkSeries (dtype_of (snd cs))
                           (map null_to_nan (values (snd cs))))) df.

(** [df.rename(columns=m)] *)
Definition rename (df : DataFrame) (m : dict string) : DataFrame :=
  map (fun cs => (match dict_get m (fst cs) with
                  | Some c' => c'
                  | None => fst cs
                  end, snd cs)) df.

(** [s == 'text'] on a Series. *)
Definition series_eq_str (s : Series) (t : string) : list bool :=
  map (fun c => match c with CStr u => String.eqb u t | _ => false end)
      (values s).

(** [~np.isclose(a, b)] on two columns: numpy has no [isfinite] for object
    arrays. *)
Definition not_isclose (a b : Series) : result (list bool) :=
  if numeric_dtype (dtype_of a) && numeric_dtype (dtype_of b) then
    Ok (map2 (fun x y => negb (isclose (to_float x) (to_float y)))
             (values a) (values b))
  else
    Raise (TypeError "ufunc 'isfinite' not supported for the input types").

(** [a != b] on two columns. *)
Definition series_ne (a b : Series) : list bool :=
  map2 cell_ne (values a) (values b).

(** [a.notnull() | b.notnull()] *)
Definition notnull_either (a b : Series) : list bool :=
  map2 (fun x y => notnull x || notnull y) (values a) (values b).

(** [pd.concat(masks, axis=1).any(1)]: the row-wise "or" of the masks;
    pandas refuses an empty list. *)
Definition concat_any (masks : list (list bool)) : result (list bool) :=
  match masks with
  | [] => Raise (ValueError "No objects to concatenate")
  | m :: ms => Ok (fold_left (map2 orb) ms m)
  end.

(* ================================================================= *)
(** ** [pd.merge(left, right, on=on, how='outer', indicator=True,
        suffixes=('_x', ''))] *)
(** The join indexer: one entry per row of the result, naming the row of
    [left] and the row of [right] it is made of (pandas keeps two arrays of
    positions, with -1 for "no row"). *)
Inductive joined : Type :=
| LeftOnly (i : nat)
| RightOnly (j : nat)
| Both (i j : nat).

Definition indexer : Type := list joined.

Definition left_row (p : joined) : option nat :=
  match p with
  | LeftOnly i | Both i _ => Some i
  | RightOnly _ => None
  end.

Definition right_row (p : joined) : option nat :=
  match p with
  | RightOnly j | Both _ j => Some j
  | LeftOnly _ => None
  end.

(** The order in which pandas lists the rows of an outer join depends on
    its version (by first appearance, or sorted by key).  All that is used
    of it is that it permutes the rows. *)
Record RowOrder : Type := mkRowOrder {
  join_order : DataFrame -> DataFrame -> list string -> indexer -> indexer;
  join_order_perm :
    forall left right on ix, Permutation (join_order left right on ix) ix
}.

Definition first_appearance : RowOrder :=
  mkRowOrder (fun _ _ _ ix => ix) (fun _ _ _ ix => Permutation_refl ix).

Definition series_at (df : DataFrame) (c : string) : Series :=
  match labelled c df with
  | (_, s) :: _ => s
  | [] => mkSeries Object []
  end.

Definition cell_at (df : DataFrame) (c : string) (i : nat) : cell :=
  nth i (values (series_at df c)) CNone.

(** The key of row [i]: its cells in the columns [on], in that order. *)
Definition key_at (df : DataFrame) (on : list string) (i : nat) : list cell :=
  map (fun k => cell_at df k i) on.

Definition keys_eqb (a b : list cell) : bool := all2 key_eqb a b.

Definition matches (left right : DataFrame) (on : list string) (i j : nat)
  : bool :=
  keys_eqb (key_at left on i) (key_at right on j).

(** Outer join: every row of [left] with each of its matches in [right]
    (or alone), then the rows of [right] without a match. *)
Definition join_pairs (left right : DataFrame) (on : list string) : indexer :=
  flat_map
    (fun i =>
       match filter (matches left right on i) (seq 0 (nrows right)) with
       | [] => [LeftOnly i]
       | js => map (Both i) js
       end)
    (seq 0 (nrows left))
  ++ map RightOnly
       (filter
          (fun j => negb (existsb (fun i => matches left right on i j)
                                  (seq 0 (nrows left))))
          (seq 0 (nrows right))).

Definition is_none {A : Type} (o : option A) : bool :=
  match o with None => true | Some _ => false end.

(** A value column carried through the join: promoted when some row of
    the result has no row on this side. *)
Definition take (s : Series) (ix : list (option nat)) : Series :=
  let missing := existsb is_none ix in
  mkSeries
    (if missing then promote_dtype (dtype_of s) else dtype_of s)
    (map (fun o =>
            match o with
            | Some i =>
                let c := nth i (values s) CNone in
                if missing then promote_cell (dtype_of s) c else c
            | None => CFloat nan
            end) ix).

(** A key column of the result: the key of the left row, or of the right
    row where there is no left row. *)
Definition take_key (l r : Series) (ix : indexer) : Series :=
  mkSeries (dtype_of l)
    (map (fun p =>
            match p with
            | LeftOnly i | Both i _ => nth i (values l) CNone
            | RightOnly j => nth j (values r) CNone
            end) ix).

(** The [_merge] column. *)
Definition indicator (ix : indexer) : Series :=
  mkSeries Object
    (map (fun p =>
            match p with
            | Both _ _ => CStr "both"
            | LeftOnly _ => CStr "left_only"
            | RightOnly _ => CStr "right_only"
            end) ix).

Fixpoint nodupb (l : list string) : bool :=
  match l with
  | [] => true
  | x :: l' => negb (mem x l') && nodupb l'
  end.

Definition dtype_eqb (a b : dtype) : bool :=
  match a, b with
  | Float64, Float64 | Int64, Int64 | BoolT, BoolT | Object, Object => true
  | _, _ => false
  end.

Definition reserved : list string :=
  ["_merge"; "_left_indicator"; "_right_indicator"].

(** The name a column of [left] gets: key columns keep theirs, a value
    column that [right] also has takes the suffix ['_x'].  The columns of
    [right] keep their names (suffix ['']). *)
Definition left_name (right : DataFrame) (on : list string) (c : string)
  : string :=
  if mem c on then c
  else if mem c (columns right) then (c ++ "_x")%string
  else c.

(** The rows of the join, in the order of pandas. *)
Definition join_rows (O : RowOrder) (left right : DataFrame)
    (on : list string) : indexer :=
  join_order O left right on (join_pairs left right on).

(** The joined frame without its indicator: the columns of [left], then
    the value columns of [right]. *)
Definition merge_body (O : RowOrder) (left right : DataFrame)
    (on : list string) : DataFrame :=
  map (fun cs =>
         (left_name right on (fst cs),
          if mem (fst cs) on
          then take_key (snd cs) (series_at right (fst cs))
                        (join_rows O left right on)
          else take (snd cs) (map left_row (join_rows O left right on))))
      left
  ++ map (fun cs =>
            (fst cs, take (snd cs) (map right_row (join_rows O left right on))))
       (filter (fun cs => negb (mem (fst cs) on)) right).

(** The joined frame. *)
Definition merge_frame (O : RowOrder) (left right : DataFrame)
    (on : list string) : DataFrame :=
  merge_body O left right on
  ++ [("_merge", indicator (join_rows O left right on))].

Definition merge (O : RowOrder) (left right : DataFrame) (on : list string)
  : result DataFrame :=
  match on with
  | [] => Raise (OutsideModel "merge on an empty list of keys")
  | _ =>
    if negb (nodupb on && nodupb (columns left) && nodupb (columns right))
    then Raise (OutsideModel "repeated column labels in the inputs of merge")
    else
      match find (fun k => negb (mem k (columns left)
                                 && mem k (columns right))) on with
      | Some k => Raise (KeyError k)
      | None =>
        if existsb (fun c => mem c (columns left) || mem c (columns right))
                   reserved
        then Raise (ValueError
                 "Cannot use name of an existing column for indicator column")
        else if negb (forallb (fun k => dtype_eqb (dtype_of (series_at left k))
                                           (dtype_of (series_at right k))) on)
        then Raise (OutsideModel "key columns of different dtypes")
        else Ok (merge_frame O left right on)
      end
  end.

(* ================================================================= *)
(** ** [compare_dfs] *)
(** The returned dict, with its keys ['diff'], ['new'] and ['remove']. *)
Record Comparison : Type := mkComparison {
  diff : DataFrame;
  new : DataFrame;
  remove : DataFrame
}.

Definition as_series (x : item) : result Series :=
  match x with
  | ISeries s => Ok s
  | IFrame _ => Raise (OutsideModel "a repeated label used as one column")
  end.

(** The body of the loop over [val_cols] (source lines 55 to 60): the mask
    [c2] of the rows in which column [c] has changed. *)
Definition compare_column (old_set new_set : DataFrame) (c : string)
  : result (list bool) :=
  old_c <- getitem old_set c ;;
  d <- item_dtype old_c ;;
  new_c <- getitem new_set c ;;
  old_s <- as_series old_c ;;
  new_s <- as_series new_c ;;
  c1 <- (if String.eqb (dtype_name d) "float64"
         then not_isclose old_s new_s
         else Ok (series_ne old_s new_s)) ;;
  let notnan1 := notnull_either old_s new_s in
  let c2 := map2 andb c1 notnan1 in
  Ok c2.

(** The loop itself, [comp_list] growing by one mask per column. *)
Fixpoint compare_columns (old_set new_set : DataFrame) (val_cols : list string)
    (comp_list : list (list bool)) : result (list (list bool)) :=
  match val_cols with
  | [] => Ok comp_list
  | c :: rest =>
      c2 <- compare_column old_set new_set c ;;
      compare_columns old_set new_set rest (comp_list ++ [c2])
  end.

(** [{c: c[:-2] for c in comp2 if '_x' in c}] *)
Definition suffix_map (cols : list string) : dict string :=
  fold_left
    (fun d c => if contains "_x" c then dict_set d c (drop_last2 c) else d)
    cols [].

Definition compare_dfs (O : RowOrder) (old_df new_df : DataFrame)
    (on : list string) : result Comparison :=
  if negb (existsb (fun c => mem c (columns new_df)) (columns old_df))
  then Raise (ValueError "Both DataFrames must have the same columns")
  else
    let val_cols := filter (fun c => negb (mem c on)) (columns old_df) in
    let all_cols := columns old_df in
    comp1 <- merge O old_df new_df on ;;
    _merge <- (x <- getitem comp1 "_merge" ;; as_series x) ;;
    rem1 <- loc comp1 (series_eq_str _merge "left_only") on ;;
    add1 <- loc comp1 (series_eq_str _merge "right_only") all_cols ;;
    comp2 <- drop (mask_rows comp1 (series_eq_str _merge "both")) "_merge" ;;
    let comp2 := setitem_isnull_nan comp2 in
    let old_cols := on in
    let old_cols_map := suffix_map (columns comp2) in
    let old_cols := old_cols ++ dict_keys old_cols_map in
    old_set <- select comp2 old_cols ;;
    let old_set := rename old_set old_cols_map in
    new_set <- select comp2 all_cols ;;
    comp_list <- compare_columns old_set new_set val_cols [] ;;
    comp_index <- concat_any comp_list ;;
    let diff_set := mask_rows new_set comp_index in
    Ok (mkComparison diff_set add1 rem1).

(** [compare_dfs] called with [on] a [str], which the docstring allows
    ("str or list of str").  Line 36 tests [c in on] on the string, lines
    39 to 44 take the one label, and line 46 calls [on.copy()], which a
    [str] does not have. *)
Definition compare_dfs_str (O : RowOrder) (old_df new_df : DataFrame)
    (on : string) : result Comparison :=
  if negb (existsb (fun c => mem c (columns new_df)) (columns old_df))
  then Raise (ValueError "Both DataFrames must have the same columns")
  else
    let val_cols := filter (fun c => negb (contains c on)) (columns old_df) in
    let all_cols := columns old_df in
    comp1 <- merge O old_df new_df [on] ;;
    _merge <- (x <- getitem comp1 "_merge" ;; as_series x) ;;
    rem1 <- loc comp1 (series_eq_str _merge "left_only") [on] ;;
    add1 <- loc comp1 (series_eq_str _merge "right_only") all_cols ;;
    comp2 <- drop (mask_rows comp1 (series_eq_str _merge "both")) "_merge" ;;
    let comp2 := setitem_isnull_nan comp2 in
    Raise (AttributeError "'str' object has no attribute 'copy'").

(* ================================================================= *)
(** ** Frames with distinct labels *)
(** The frame with columns [cols], column [c] being [f c]. *)
Definition frame_of (cols : list string) (f : string -> Series) : DataFrame :=
  map (fun c => (c, f c)) cols.

(** Operations that act on each column and keep the labels. *)
Definition map_series (g : Series -> Series) (df : DataFrame) : DataFrame :=
  map (fun cs => (fst cs, g (snd cs))) df.

Definition nan_series (s : Series) : Series :=
  mkSeries (dtype_of s) (map null_to_nan (values s)).

(* ================================================================= *)
(** ** The inputs [compare_dfs] is written for *)
(** A column of [n] cells that fit its dtype. *)
Definition wf_series (n : nat) (s : Series) : Prop :=
  List.length (values s) = n
  /\ Forall (fun c => cell_ok (dtype_of s) c = true) (values s).

(** What pandas guarantees of a frame (columns of one length, cells that
    fit the dtype), with distinct labels. *)
Definition wf_frame (df : DataFrame) : Prop :=
  NoDup (columns df) /\ Forall (fun cs => wf_series (nrows df) (snd cs)) df.

(** Labels that the suffix ['_x'] and the indicator column cannot be
    confused with. *)
Definition plain_name (c : string) : Prop :=
  contains "_x" c = false /\ ~ In c reserved.

(** The integers an int64 column can hold. *)
Definition int64 (z : Z) : Prop :=
  (-9223372036854775808 <= z < 9223372036854775808)%Z.

(** The two frames have the same set of column labels. *)
Definition same_columns (a b : DataFrame) : Prop :=
  forall c, In c (columns a) <-> In c (columns b).

(** Two snapshots of one table and its key: the same columns with the same
    dtypes on both sides, and a non-empty list of distinct key columns. *)
Record valid (old_df new_df : DataFrame) (on : list string) : Prop := mkValid {
  valid_old : wf_frame old_df;
  valid_new : wf_frame new_df;
  valid_columns : forall c, In c (columns new_df) <-> In c (columns old_df);
  valid_dtypes : forall c, In c (columns old_df) ->
                 dtype_of (series_at new_df c) = dtype_of (series_at old_df c);
  valid_on : on <> [] /\ NoDup on /\ incl on (columns old_df);
  valid_names : Forall plain_name (columns old_df)
}.

(* ================================================================= *)
(** ** Reading the result: rows by position *)
(** The rows of the join that have only a left row, only a right row, or
    both, in the order of the indexer. *)
Definition lefts (ix : indexer) : list nat :=
  flat_map (fun p => match p with LeftOnly i => [i] | _ => [] end) ix.

Definition rights (ix : indexer) : list nat :=
  flat_map (fun p => match p with RightOnly j => [j] | _ => [] end) ix.

Definition boths (ix : indexer) : list (nat * nat) :=
  flat_map (fun p => match p with Both i j => [(i, j)] | _ => [] end) ix.

Definition is_left_only (p : joined) : bool :=
  match p with LeftOnly _ => true | _ => false end.

Definition is_right_only (p : joined) : bool :=
  match p with RightOnly _ => true | _ => false end.

Definition is_both (p : joined) : bool :=
  match p with Both _ _ => true | _ => false end.

Definition nonempty {A : Type} (l : list A) : bool :=
  match l with [] => false | _ => true end.

Definition promote_series (s : Series) : Series :=
  mkSeries (promote_dtype (dtype_of s))
           (map (promote_cell (dtype_of s)) (values s)).

(** A frame as the join carries it: when the other side has rows of its
    own, the value columns are promoted. *)
Definition carried (promoted : bool) (on : list string) (df : DataFrame)
  : DataFrame :=
  if promoted
  then map (fun cs => (fst cs, if mem (fst cs) on then snd cs
                               else promote_series (snd cs))) df
  else df.

(** The rows [idx] of [df], in the columns [cols]. *)
Definition rows_at (df : DataFrame) (cols : list string) (idx : list nat)
  : DataFrame :=
  frame_of cols
    (fun c => mkSeries (dtype_of (series_at df c)) (map (cell_at df c) idx)).

(** The flag [c2] of one pair of cells (source lines 55 to 60), [d] being
    the dtype of the old column. *)
Definition changed (d : dtype) (x y : cell) : bool :=
  (if String.eqb (dtype_name d) "float64"
   then negb (isclose (to_float x) (to_float y))
   else cell_ne x y)
  && (notnull x || notnull y).

(** Column [c] differs between row [i] of [old_df] and row [j] of
    [new_df], nulls having been turned into [nan]. *)
Definition col_changed (old_df new_df : DataFrame) (c : string) (i j : nat)
  : bool :=
  changed (dtype_of (series_at old_df c))
          (null_to_nan (cell_at old_df c i))
          (null_to_nan (cell_at new_df c j)).

Definition val_cols_of (old_df : DataFrame) (on : list string) : list string :=
  filter (fun c => negb (mem c on)) (columns old_df).

Definition row_changed (old_df new_df : DataFrame) (on : list string)
    (p : nat * nat) : bool :=
  existsb (fun c => col_changed old_df new_df c (fst p) (snd p))
          (val_cols_of old_df on).

(** The rows of [diff]: for each listed pair, the key of the old row and
    the values of the new row, nulls turned into [nan]. *)
Definition diff_rows (old_df new_df : DataFrame) (on : list string)
    (pairs : list (nat * nat)) : DataFrame :=
  frame_of (columns old_df)
    (fun c =>
       mkSeries (dtype_of (series_at new_df c))
         (map (fun p => null_to_nan (if mem c on then cell_at old_df c (fst p)
                                     else cell_at new_df c (snd p)))
              pairs)).

(** Row [i] of [left] has a match in [right]; row [j] of [right] has a
    match in [left]. *)
Definition matched_left (left right : DataFrame) (on : list string) (i : nat)
  : Prop :=
  exists j, j < nrows right /\ matches left right on i j = true.

Definition matched_right (left right : DataFrame) (on : list string) (j : nat)
  : Prop :=
  exists i, i < nrows left /\ matches left right on i j = true.

(* ================================================================= *)
(** ** The comparison, stated on rows *)
(** Positions in [old_df] of the rows whose key is not in [new_df]. *)
Definition removed_rows (O : RowOrder) (old_df new_df : DataFrame)
    (on : list string) : list nat :=
  lefts (join_rows O old_df new_df on).

(** Positions in [new_df] of the rows whose key is not in [old_df]. *)
Definition added_rows (O : RowOrder) (old_df new_df : DataFrame)
    (on : list string) : list nat :=
  rights (join_rows O old_df new_df on).

(** Pairs of positions (old, new) of the rows with the same key. *)
Definition matched_pairs (O : RowOrder) (old_df new_df : DataFrame)
    (on : list string) : list (nat * nat) :=
  boths (join_rows O old_df new_df on).

(** The two inputs as the join carries them. *)
Definition carried_old (O : RowOrder) (old_df new_df : DataFrame)
    (on : list string) : DataFrame :=
  carried (nonempty (added_rows O old_df new_df on)) on old_df.

Definition carried_new (O : RowOrder) (old_df new_df : DataFrame)
    (on : list string) : DataFrame :=
  carried (nonempty (removed_rows O old_df new_df on)) on new_df.

(** The matched pairs in which some value column has changed. *)
Definition diff_pairs (O : RowOrder) (old_df new_df : DataFrame)
    (on : list string) : list (nat * nat) :=
  filter (row_changed (carried_old O old_df new_df on)
                      (carried_new O old_df new_df on) on)
         (matched_pairs O old_df new_df on).

(** The table has a column outside its key. *)
Definition has_value_column (old_df : DataFrame) (on : list string) : Prop :=
  val_cols_of old_df on <> [].

(** Keys: no two rows of a table have the same key. *)
Definition unique_keys (df : DataFrame) (on : list string) : Prop :=
  forall i j, i < nrows df -> j < nrows df ->
              matches df df on i j = true -> i = j.

(** Keys: no row of one table has the key of a row of the other. *)
Definition disjoint_keys (old_df new_df : DataFrame) (on : list string)
  : Prop :=
  forall i j, i < nrows old_df -> j < nrows new_df ->
              matches old_df new_df on i j = false.

Definition exact_cell (c : cell) : bool :=
  match c with
  | CInt _ | CStr _ | CBool _ => true
  | _ => false
  end.

(** The key columns hold integers, text or booleans, and no null: two keys
    match only when they are the same cells. *)
Definition exact_keys (df : DataFrame) (on : list string) : Prop :=
  forall k i, In k on -> i < nrows df -> exact_cell (cell_at df k i) = true.

(* ================================================================= *)
(** ** Deciding the hypotheses on concrete tables *)
Definition wf_seriesb (n : nat) (s : Series) : bool :=
  Nat.eqb (List.length (values s)) n
  && forallb (cell_ok (dtype_of s)) (values s).

Definition wf_frameb (df : DataFrame) : bool :=
  nodupb (columns df)
  && forallb (fun cs => wf_seriesb (nrows df) (snd cs)) df.

Definition plain_nameb (c : string) : bool :=
  negb (contains "_x" c) && negb (mem c reserved).

Definition validb (old_df new_df : DataFrame) (on : list string) : bool :=
  wf_frameb old_df && wf_frameb new_df
  && forallb (fun c => mem c (columns old_df)) (columns new_df)
  && forallb (fun c => mem c (columns new_df)) (columns old_df)
  && forallb (fun c => dtype_eqb (dtype_of (series_at new_df c))
                                 (dtype_of (series_at old_df c)))
             (columns old_df)
  && nonempty on && nodupb on
  && forallb (fun k => mem k (columns old_df)) on
  && forallb plain_nameb (columns old_df).

Definition unique_keysb (df : DataFrame) (on : list string) : bool :=
  forallb (fun i =>
             forallb (fun j => implb (matches df df on i j) (Nat.eqb i j))
                     (seq 0 (nrows df)))
          (seq 0 (nrows df)).

Definition disjoint_keysb (old_df new_df : DataFrame) (on : list string)
  : bool :=
  forallb (fun i =>
             forallb (fun j => negb (matches old_df new_df on i j))
                     (seq 0 (nrows new_df)))
          (seq 0 (nrows old_df)).

Definition exact_keysb (df : DataFrame) (on : list string) : bool :=
  forallb (fun k => forallb (fun i => exact_cell (cell_at df k i))
                            (seq 0 (nrows df))) on.

(* ================================================================= *)
(** ** Tables used as examples *)
Definition floats (l : list float) : Series := mkSeries Float64 (map CFloat l).

Definition ints (l : list Z) : Series := mkSeries Int64 (map CInt l).

Definition strs (l : list string) : Series := mkSeries Object (map CStr l).

(** One row [{id: 1, a: 1.0}], and the same with one more column. *)
Definition narrow : DataFrame :=
  [("id", ints [1%Z]); ("a", floats [1%float])].

Definition wide : DataFrame :=
  [("id", ints [1%Z]); ("a", floats [1%float]); ("b", floats [2%float])].

(** One row [{id: 1, b: 2.0}]: the column [a] of [narrow] is missing. *)
Definition other : DataFrame :=
  [("id", ints [1%Z]); ("b", floats [2%float])].

(** One row [{id: k, val: v}]. *)
Definition one_row (k : Z) (v : float) : DataFrame :=
  [("id", ints [k]); ("val", floats [v])].

Definition no_row : DataFrame := [("id", ints []); ("val", floats [])].

(** Membership of users in groups: both columns are the key. *)
Definition membership : DataFrame :=
  [("user", ints [1; 2]%Z); ("group", ints [7; 7]%Z)].

(** The scenario of the specification:
    old = [{id: 1, val: 10.0}, {id: 2, val: 20.0}],
    new = [{id: 1, val: 10.0}, {id: 3, val: 30.0}]. *)
Definition scenario_old : DataFrame :=
  [("id", ints [1; 2]%Z); ("val", floats [10; 20]%float)].

Definition scenario_new : DataFrame :=
  [("id", ints [1; 3]%Z); ("val", floats [10; 30]%float)].

(** Two tables with no key in common, an integer value column, and a
    value beyond 2^53. *)
Definition counts_old : DataFrame :=
  [("id", ints [1%Z]); ("n", ints [5%Z])].

Definition counts_new : DataFrame :=
  [("id", ints [2%Z]); ("n", ints [9007199254740993%Z])].

(** Two snapshots in which one row goes, and one row changes. *)
Definition stock_old : DataFrame :=
  [("id", ints [1; 2]%Z); ("n", ints [5; 6]%Z)].

Definition stock_new : DataFrame :=
  [("id", ints [1%Z]); ("n", ints [9007199254740993%Z])].

(** A table with a missing value, filled in the new snapshot. *)
Definition gauge_old : DataFrame :=
  [("id", ints [1%Z]); ("flow", floats [nan]); ("site", strs ["a"])].

Definition gauge_new : DataFrame :=
  [("id", ints [1%Z]); ("flow", floats [2.5%float]); ("site", strs ["a"])].

(** [stock_old] after its second row has gone, the first unchanged. *)
Definition stock_kept : DataFrame :=
  [("id", ints [1%Z]); ("n", ints [5%Z])].

(** Two snapshots with a row of their own each, and a count that moves
    from 100000 to 100001. *)
Definition tally_old : DataFrame :=
  [("id", ints [1; 5]%Z); ("n", ints [100000; 1]%Z)].

Definition tally_new : DataFrame :=
  [("id", ints [1; 6]%Z); ("n", ints [100001; 1]%Z)].

(* ================================================================= *)
(** ** [compare_dfs] on the Python heap

    The frames and lists of the source are objects: [old_df], [new_df]
    and [on] belong to the caller, and the source updates some objects in
    place (line 44 writes into [comp2], line 48 extends [old_cols], line
    50 renames [old_set]).  Here the same function is written over a
    store of objects, with every copy and every update in place made
    explicit, to check that the objects of the caller are left as they
    were and that the result is the one computed above on values. *)
(** [df._merge] *)
Definition frame_indicator (df : DataFrame) : result Series :=
  x <- getitem df "_merge" ;; as_series x.

Module Store.

Inductive obj : Type :=
| OFrame (df : DataFrame)
| OList (l : list string).

Definition ref : Type := nat.

Definition heap : Type := list obj.

(** State and exceptions: a computation returns a value or raises, and
    leaves a heap either way. *)
Definition M (A : Type) : Type := heap -> result A * heap.

Definition ret {A : Type} (a : A) : M A := fun h => (Ok a, h).

Definition raise {A : Type} (e : exn) : M A := fun h => (Raise e, h).

Definition bind {A B : Type} (m : M A) (k : A -> M B) : M B :=
  fun h =>
    match m h with
    | (Ok a, h') => k a h'
    | (Raise e, h') => (Raise e, h')
    end.

Declare Scope store_scope.

Delimit Scope store_scope with store.

Notation "x <- m ;; k" := (bind m (fun x => k))
  (at level 61, m at next level, right associativity) : store_scope.

Local Open Scope store_scope.

Definition lift {A : Type} (r : result A) : M A := fun h => (r, h).

Fixpoint update {A : Type} (n : nat) (x : A) (l : list A) : list A :=
  match l, n with
  | [], _ => []
  | _ :: l', 0 => x :: l'
  | a :: l', S n' => a :: update n' x l'
  end.

(** A new object. *)
Definition alloc (o : obj) : M ref := fun h => (Ok (List.length h), h ++ [o]).

Definition load (r : ref) : M obj :=
  fun h =>
    match nth_error h r with
    | Some o => (Ok o, h)
    | None => (Raise (OutsideModel "no such object"), h)
    end.

(** An update in place. *)
Definition store (r : ref) (o : obj) : M unit :=
  fun h =>
    if Nat.ltb r (List.length h) then (Ok tt, update r o h)
    else (Raise (OutsideModel "no such object"), h).

Definition load_frame (r : ref) : M DataFrame :=
  o <- load r ;;
  match o with
  | OFrame df => ret df
  | OList _ => raise (AttributeError "'list' object is not a DataFrame")
  end.

Definition load_list (r : ref) : M (list string) :=
  o <- load r ;;
  match o with
  | OList l => ret l
  | OFrame _ => raise (OutsideModel "a DataFrame where a list is expected")
  end.

(** [df.columns] *)
Definition columns_of (r : ref) : M (list string) :=
  df <- load_frame r ;; ret (columns df).

(** [pd.merge(l, r, on=on, ...)]: a new frame. *)
Definition pd_merge (O : RowOrder) (l r on : ref) : M ref :=
  L <- load_frame l ;;
  R <- load_frame r ;;
  K <- load_list on ;;
  df <- lift (merge O L R K) ;;
  alloc (OFrame df).

(** [df.copy()] *)
Definition copy (r : ref) : M ref :=
  df <- load_frame r ;; alloc (OFrame df).

(** [df._merge] *)
Definition indicator_of (r : ref) : M Series :=
  df <- load_frame r ;; lift (frame_indicator df).

(** [df.loc[mask, cols]]: a new frame. *)
Definition loc_new (r : ref) (mask : list bool) (cols : list string) : M ref :=
  df <- load_frame r ;;
  sub <- lift (loc df mask cols) ;;
  alloc (OFrame sub).

(** [df[mask]]: a new frame. *)
Definition getitem_mask (r : ref) (mask : list bool) : M ref :=
  df <- load_frame r ;; alloc (OFrame (mask_rows df mask)).

(** [df[cols]]: a new frame. *)
Definition getitem_cols (r : ref) (cols : list string) : M ref :=
  df <- load_frame r ;;
  sub <- lift (select df cols) ;;
  alloc (OFrame sub).

(** [df.drop(label, axis=1)]: a new frame. *)
Definition drop_new (r : ref) (label : string) : M ref :=
  df <- load_frame r ;;
  sub <- lift (drop df label) ;;
  alloc (OFrame sub).

(** [df[df.isnull()] = np.nan]: in place. *)
Definition setitem_isnull (r : ref) : M unit :=
  df <- load_frame r ;; store r (OFrame (setitem_isnull_nan df)).

(** [df.rename(columns=m, inplace=True)] *)
Definition rename_inplace (r : ref) (m : dict string) : M unit :=
  df <- load_frame r ;; store r (OFrame (rename df m)).

(** [l.copy()] on a list: a new list. *)
Definition list_copy (r : ref) : M ref :=
  l <- load_list r ;; alloc (OList l).

(** [l.extend(xs)]: in place. *)
Definition list_extend (r : ref) (xs : list string) : M unit :=
  l <- load_list r ;; store r (OList (l ++ xs)).

(** [compare_dfs] over references.  The result is the dict, as the
    references of its three frames ([diff], [new], [remove]). *)
Definition compare_dfs_heap (O : RowOrder) (old_df new_df on : ref)
  : M (ref * ref * ref) :=
  old_columns <- columns_of old_df ;;
  new_columns <- columns_of new_df ;;
  if negb (existsb (fun c => mem c new_columns) old_columns)
  then raise (ValueError "Both DataFrames must have the same columns")
  else
    on_items <- load_list on ;;
    let val_cols := filter (fun c => negb (mem c on_items)) old_columns in
    let all_cols := old_columns in
    comp1 <- pd_merge O old_df new_df on ;;
    rem1 <- (m <- indicator_of comp1 ;;
             k <- load_list on ;;
             t <- loc_new comp1 (series_eq_str m "left_only") k ;;
             copy t) ;;
    add1 <- (m <- indicator_of comp1 ;;
             t <- loc_new comp1 (series_eq_str m "right_only") all_cols ;;
             copy t) ;;
    comp2 <- (m <- indicator_of comp1 ;;
              t <- getitem_mask comp1 (series_eq_str m "both") ;;
              t <- drop_new t "_merge" ;;
              copy t) ;;
    _ <- setitem_isnull comp2 ;;
    old_cols <- list_copy on ;;
    comp2_columns <- columns_of comp2 ;;
    let old_cols_map := suffix_map comp2_columns in
    _ <- list_extend old_cols (dict_keys old_cols_map) ;;
    old_set <- (k <- load_list old_cols ;;
                t <- getitem_cols comp2 k ;;
                copy t) ;;
    _ <- rename_inplace old_set old_cols_map ;;
    new_set <- (t <- getitem_cols comp2 all_cols ;; copy t) ;;
    comp_list <- (o <- load_frame old_set ;;
                  n <- load_frame new_set ;;
                  lift (compare_columns o n val_cols [])) ;;
    comp_index <- lift (concat_any comp_list) ;;
    diff_set <- (t <- getitem_mask new_set comp_index ;; copy t) ;;
    ret (diff_set, add1, rem1).

(** The caller's heap in the examples: the two snapshots of the
    specification's scenario and the key. *)
Definition scenario_heap : heap :=
  [OFrame scenario_old; OFrame scenario_new; OList ["id"]].

(* ----------------------------------------------------------------- *)
(** *** What a computation leaves untouched *)
(** [m], run on a heap of at least [n] objects, leaves the first [n] as
    they are, and its value satisfies [Q]. *)
Definition keeps (n : nat) {A : Type} (m : M A) (Q : A -> Prop) : Prop :=
  forall h, n <= List.length h ->
    n <= List.length (snd (m h))
    /\ firstn n (snd (m h)) = firstn n h
    /\ (forall a, fst (m h) = Ok a -> Q a).

End Store.

(* ================================================================= *)
(** ** [create_engine] *)
Module Engine.

(** An sqlalchemy engine is made from its URL and opens nothing until
    [connect] is called. *)
Record engine : Type := mkEngine { url : string }.

(** What [create_engine] meets outside: whether [import pymssql] works,
    what [sqlalchemy.create_engine] does with a URL, and whether
    [engine.connect()] succeeds. *)
Record World : Type := mkWorld {
  pymssql_installed : bool;
  sa_create_engine : string -> result engine;
  connect : engine -> result unit
}.

(** A result, and the lines printed. *)
Definition outcome : Type := (result engine * list string)%type.

Definition odbc_drivers : list string :=
  ["?driver=ODBC+Driver+17+for+SQL+Server";
   "?driver=ODBC+Driver+13.1+for+SQL+Server";
   "?driver=ODBC+Driver+13+for+SQL+Server";
   "?driver=ODBC+Driver+11+for+SQL+Server";
   "?driver=SQL+Server+Native+Client+11.0"].

(** Lines 95 to 101. *)
Definition credentials (username password : option string) : string :=
  match username with
  | Some u =>
      let up := u in
      let up := match password with
                | Some p => (up ++ ":" ++ p)%string
                | None => up
                end in
      (up ++ "@")%string
  | None => ""
  end.

(** One rung of the ladder (for instance lines 114 to 119): the engine for
    [driver] is made outside any [try], so an exception there leaves the
    function; then [connect] is tried, and [otherwise] is the [except]
    branch. *)
Definition rung (w : World) (base driver : string) (otherwise : engine -> outcome)
  : outcome :=
  match sa_create_engine w (base ++ driver)%string with
  | Raise e => (Raise e, [])
  | Ok engine =>
      match connect w engine with
      | Ok _ => (Ok engine, [])
      | Raise _ => otherwise engine
      end
  end.

Definition create_engine (w : World) (db_type server database : string)
    (username password : option string) : outcome :=
  let up := credentials username password in
  if String.eqb db_type "mssql" then
    match (if pymssql_installed w
           then sa_create_engine w
                  ("mssql+pymssql://" ++ up ++ server ++ "/" ++ database)%string
           else Raise (ImportError "No module named 'pymssql'")) with
    | Ok engine => (Ok engine, [])
    | Raise _ =>
        let base := ("mssql+pyodbc://" ++ up ++ server ++ "/" ++ database)%string in
        rung w base "?driver=ODBC+Driver+17+for+SQL+Server" (fun _ =>
        rung w base "?driver=ODBC+Driver+13.1+for+SQL+Server" (fun _ =>
        rung w base "?driver=ODBC+Driver+13+for+SQL+Server" (fun _ =>
        rung w base "?driver=ODBC+Driver+11+for+SQL+Server" (fun _ =>
        rung w base "?driver=SQL+Server+Native+Client+11.0" (fun engine =>
        (Ok engine, ["Install a proper ODBC mssql driver"]))))))
    end
  else if String.eqb db_type "postgresql" then
    (sa_create_engine w ("postgresql://" ++ up ++ server ++ "/" ++ database)%string,
     [])
  else if String.eqb db_type "oracle" then
    (sa_create_engine w ("oracle://" ++ up ++ server ++ "/" ++ database)%string,
     [])
  else if String.eqb db_type "mysql" then
    (sa_create_engine w ("mysql+mysqldb://" ++ up ++ server ++ "/" ++ database)%string,
     [])
  else if String.eqb db_type "sqlite" then
    (sa_create_engine w "sqlite:///:memory:", [])
  else
    (Raise (UnboundLocalError "engine"), []).

(** Every driver fails to open a connection: [pymssql] is not there, and
    no engine connects. *)
Definition no_driver_connects (w : World) : Prop :=
  pymssql_installed w = false
  /\ forall e, exists err, connect w e = Raise err.

(** [sqlalchemy.create_engine] accepts every URL. *)
Definition engines_are_made (w : World) : Prop :=
  forall u, sa_create_engine w u = Ok (mkEngine u).

(** A machine without any SQL Server driver. *)
Definition bare_machine : World :=
  mkWorld false (fun u => Ok (mkEngine u))
          (fun _ => Raise (OperationalError "Data source name not found")).

(** A machine on which one ODBC driver is installed: an engine connects
    when its URL names that driver. *)
Definition machine_with (driver : string) : World :=
  mkWorld false (fun u => Ok (mkEngine u))
          (fun e => if contains driver (url e) then Ok tt
                    else Raise (OperationalError "Data source name not found")).

(** A machine without [pyodbc]: sqlalchemy refuses the ODBC URLs. *)
Definition machine_without_pyodbc : World :=
  mkWorld false
          (fun u => if contains "+pyodbc" u
                    then Raise (ImportError "No module named 'pyodbc'")
                    else Ok (mkEngine u))
          (fun _ => Raise (OperationalError "Data source name not found")).

End Engine.

(* ================================================================= *)
(** ** [save_df] *)
Module Save.

(** What the attributes of the module [os] evaluate to, as far as
    [save_df] can tell them apart: a string, or something else. *)
Inductive pyval : Type :=
| PStr (s : string)
| PObject (description : string).

(** [os.<name>]: a few attributes of the module; [path_str] is not one. *)
Definition os_getattr (name : string) : result pyval :=
  if String.eqb name "sep" then Ok (PStr "/")
  else if String.eqb name "curdir" then Ok (PStr ".")
  else if String.eqb name "pardir" then Ok (PStr "..")
  else if String.eqb name "extsep" then Ok (PStr ".")
  else if String.eqb name "devnull" then Ok (PStr "/dev/null")
  else if String.eqb name "name" then Ok (PStr "posix")
  else if mem name ["path"; "environ"; "getcwd"; "listdir"; "remove"]
  then Ok (PObject name)
  else Raise (AttributeError
                ("module 'os' has no attribute '" ++ name ++ "'")%string).

(** [s.rfind(c)] for one character. *)
Fixpoint rfind_from (c : ascii) (s : string) (i : nat) (found : option nat)
  : option nat :=
  match s with
  | EmptyString => found
  | String c' s' =>
      rfind_from c s' (S i) (if Ascii.eqb c' c then Some i else found)
  end.

Definition rfind (c : ascii) (s : string) : option nat :=
  rfind_from c s 0 None.

Definition char_at (s : string) (i : nat) : option ascii := String.get i s.

(** [os.path.splitext(p)]: the extension starts at the last dot of the
    last component, leading dots apart. *)
Definition splitext (p : string) : string * string :=
  let filename := match rfind "/"%char p with Some i => S i | None => 0 end in
  match rfind "."%char p with
  | None => (p, "")
  | Some dot =>
      if Nat.leb filename dot
         && existsb (fun i => match char_at p i with
                              | Some c => negb (Ascii.eqb c "."%char)
                              | None => false
                              end)
                    (seq filename (dot - filename))
      then (String.substring 0 dot p,
            String.substring dot (String.length p - dot) p)
      else (p, "")
  end.

(** What a file written by pandas holds. *)
Inductive file : Type :=
| HDF (key : string) (df : DataFrame)
| CSV (df : DataFrame) (index header : bool).

(** The files, by path. *)
Definition filesystem : Type := list (string * file).

Definition write (fs : filesystem) (path : string) (f : file) : filesystem :=
  (path, f) :: filter (fun pf => negb (String.eqb (fst pf) path)) fs.

(** Lines 165 to 168, [path1] being the pair of line 163.  The tests are
    [ext in '.h5'] and [ext in '.csv']: the extension is a substring of
    the literal. *)
Definition write_by_extension (df : DataFrame) (path_str : string)
    (index header : bool) (path1 : string * string) (fs : filesystem)
  : filesystem :=
  let fs := if contains (snd path1) ".h5"
            then write fs path_str (HDF "df" df) else fs in
  if contains (snd path1) ".csv"
  then write fs path_str (CSV df index header) else fs.

(** [save_df]: a result and the files after the call.  Line 163 reads
    [os.path_str], not the argument [path_str]. *)
Definition save_df (df : DataFrame) (path_str : string) (index header : bool)
    (fs : filesystem) : result unit * filesystem :=
  match os_getattr "path_str" with
  | Raise e => (Raise e, fs)
  | Ok (PObject _) =>
      (Raise (TypeError "expected str, bytes or os.PathLike object"), fs)
  | Ok (PStr p) =>
      let path1 := splitext p in
      (Ok tt, write_by_extension df path_str index header path1 fs)
  end.

End Save.

(* ================================================================= *)
(** * Properties *)

(* ================================================================= *)
(** ** Lists, masks and strings: auxiliary facts *)
Lemma map2_map {A B C D : Type} (g : B -> C -> D) (f1 : A -> B) (f2 : A -> C)
    (l : list A) :
  map2 g (map f1 l) (map f2 l) = map (fun a => g (f1 a) (f2 a)) l.
Proof.
  induction l as [|a l IH]; simpl; [reflexivity|]. now rewrite IH.
Qed.

Lemma mask_filter_map {A B : Type} (p : A -> bool) (f : A -> B) (l : list A) :
  mask_filter (map p l) (map f l) = map f (filter p l).
Proof.
  induction l as [|a l IH]; simpl; [reflexivity|].
  destruct (p a); simpl; now rewrite IH.
Qed.

Lemma mask_filter_nil {A : Type} (mask : list bool) :
  mask_filter mask (@nil A) = [].
Proof. destruct mask as [|[] ?]; reflexivity. Qed.

Lemma mem_In (x : string) (l : list string) : mem x l = true <-> In x l.
Proof.
  unfold mem. rewrite existsb_exists. split.
  - intros (y & Hy & E). apply String.eqb_eq in E. now subst.
  - intros H. exists x. split; [assumption | apply String.eqb_refl].
Qed.

Lemma mem_not_In (x : string) (l : list string) :
  mem x l = false <-> ~ In x l.
Proof.
  rewrite <- mem_In. destruct (mem x l); split; intros; congruence.
Qed.

Lemma nodupb_NoDup (l : list string) : nodupb l = true <-> NoDup l.
Proof.
  induction l as [|x l IH]; simpl.
  - split; [constructor | reflexivity].
  - rewrite andb_true_iff, negb_true_iff, mem_not_In, IH. split.
    + intros [H1 H2]. now constructor.
    + intros H. inversion H; subst. now split.
Qed.

Lemma prefix_append (a b : string) : String.prefix a (a ++ b)%string = true.
Proof.
  induction a as [|ch a IH]; simpl.
  - now destruct b.
  - destruct (ascii_dec ch ch); [assumption | congruence].
Qed.

Lemma contains_append (sub a : string) : contains sub (a ++ sub)%string = true.
Proof.
  induction a as [|ch a IH]; simpl.
  - replace sub with (sub ++ "")%string at 2.
    + destruct sub; simpl.
      * reflexivity.
      * pose proof (prefix_append (String a sub) "") as H. simpl in H.
        destruct (String a sub ++ "")%string eqn:E; simpl in *.
        -- discriminate.
        -- apply orb_true_iff. left. exact H.
    + clear. induction sub; simpl; congruence.
  - rewrite IH. apply orb_true_r.
Qed.

Lemma substring_append (a b : string) :
  String.substring 0 (String.length a) (a ++ b)%string = a.
Proof.
  induction a as [|ch a IH]; simpl.
  - now destruct b.
  - now rewrite IH.
Qed.

Lemma length_append (a b : string) :
  String.length (a ++ b)%string = String.length a + String.length b.
Proof. induction a; simpl; congruence. Qed.

Lemma drop_last2_suffix (a : string) : drop_last2 (a ++ "_x")%string = a.
Proof.
  unfold drop_last2. rewrite length_append. simpl.
  replace (String.length a + 2 - 2) with (String.length a) by lia.
  apply substring_append.
Qed.

Lemma append_suffix_inj (a b s : string) :
  (a ++ s)%string = (b ++ s)%string -> a = b.
Proof.
  revert b. induction a as [|ch a IH]; intros [|ch' b] H; simpl in *.
  - reflexivity.
  - exfalso. apply (f_equal String.length) in H. simpl in H.
    rewrite length_append in H. lia.
  - exfalso. apply (f_equal String.length) in H. simpl in H.
    rewrite length_append in H. lia.
  - injection H as -> H. f_equal. now apply IH.
Qed.

Lemma suffixed_not_plain (a c : string) :
  contains "_x" c = false -> (a ++ "_x")%string <> c.
Proof.
  intros H E. subst c. now rewrite contains_append in H.
Qed.

Lemma columns_frame_of cols f : columns (frame_of cols f) = cols.
Proof.
  unfold columns, frame_of. rewrite map_map. simpl. apply map_id.
Qed.

Lemma frame_of_ext cols f g :
  (forall c, In c cols -> f c = g c) -> frame_of cols f = frame_of cols g.
Proof.
  intros H. apply map_ext_in. intros c Hc. now rewrite H.
Qed.

Lemma labelled_absent c (df : DataFrame) :
  ~ In c (columns df) -> labelled c df = [].
Proof.
  induction df as [|[c' s] df IH]; simpl; intros H; [reflexivity|].
  destruct (String.eqb_spec c' c) as [->|_].
  - exfalso. apply H. now left.
  - apply IH. intros Hc. apply H. now right.
Qed.

Lemma labelled_present c (df : DataFrame) :
  NoDup (columns df) -> In c (columns df) ->
  labelled c df = [(c, series_at df c)].
Proof.
  unfold series_at.
  induction df as [|[c' s] df IH]; simpl; intros Hnd Hin; [contradiction|].
  inversion Hnd as [|? ? Hc' Hnd']; subst.
  destruct (String.eqb_spec c' c) as [->|Hne].
  - now rewrite (labelled_absent c df Hc').
  - destruct Hin as [E|Hin]; [contradiction|]. now apply IH.
Qed.

Lemma series_at_absent c (df : DataFrame) :
  ~ In c (columns df) -> series_at df c = mkSeries Object [].
Proof.
  intros H. unfold series_at. now rewrite labelled_absent.
Qed.

Lemma series_at_cons c c' s (df : DataFrame) :
  series_at ((c', s) :: df) c = if String.eqb c' c then s else series_at df c.
Proof.
  unfold series_at. simpl. now destruct (String.eqb c' c).
Qed.

Lemma series_at_app c (df1 df2 : DataFrame) :
  series_at (df1 ++ df2) c =
  if mem c (columns df1) then series_at df1 c else series_at df2 c.
Proof.
  induction df1 as [|[c' s] df1 IH]; simpl; [reflexivity|].
  rewrite !series_at_cons, IH.
  rewrite (String.eqb_sym c c'). now destruct (String.eqb c' c).
Qed.

Lemma series_at_frame_of cols f c :
  In c cols -> series_at (frame_of cols f) c = f c.
Proof.
  induction cols as [|c' cols IH]; simpl; intros H; [contradiction|].
  rewrite series_at_cons. destruct (String.eqb_spec c' c) as [->|Hne].
  - reflexivity.
  - destruct H as [E|H]; [contradiction|]. now apply IH.
Qed.

(** A frame with distinct labels is its columns read back by label. *)
Lemma frame_of_series_at (df : DataFrame) :
  NoDup (columns df) -> frame_of (columns df) (series_at df) = df.
Proof.
  induction df as [|[c s] df IH]; simpl; intros H; [reflexivity|].
  inversion H as [|? ? Hc Hnd]; subst.
  rewrite series_at_cons, String.eqb_refl. f_equal.
  transitivity (frame_of (columns df) (series_at df)); [|now apply IH].
  apply frame_of_ext. intros c' Hc'.
  rewrite series_at_cons. destruct (String.eqb_spec c c') as [->|_].
  - contradiction.
  - reflexivity.
Qed.

Lemma select_distinct (df : DataFrame) (cols : list string) :
  NoDup (columns df) -> incl cols (columns df) ->
  select df cols = Ok (frame_of cols (series_at df)).
Proof.
  intros Hnd. induction cols as [|c cols IH]; intros Hin; simpl.
  - reflexivity.
  - rewrite (labelled_present c df Hnd) by (apply Hin; now left).
    rewrite IH by (intros x Hx; apply Hin; now right). reflexivity.
Qed.

Lemma getitem_distinct (df : DataFrame) (c : string) :
  NoDup (columns df) -> In c (columns df) ->
  getitem df c = Ok (ISeries (series_at df c)).
Proof.
  intros Hnd Hin. unfold getitem. now rewrite labelled_present.
Qed.

Lemma columns_map_series g df : columns (map_series g df) = columns df.
Proof. unfold columns, map_series. now rewrite map_map. Qed.

Lemma map_series_frame_of g cols f :
  map_series g (frame_of cols f) = frame_of cols (fun c => g (f c)).
Proof. unfold map_series, frame_of. now rewrite map_map. Qed.

Lemma mask_rows_frame_of cols f mask :
  mask_rows (frame_of cols f) mask
  = frame_of cols (fun c => mask_series mask (f c)).
Proof. apply (map_series_frame_of (mask_series mask)). Qed.

Lemma setitem_isnull_nan_frame_of cols f :
  setitem_isnull_nan (frame_of cols f) = frame_of cols (fun c => nan_series (f c)).
Proof. apply (map_series_frame_of nan_series). Qed.

Lemma filter_other_labels (df : DataFrame) (c : string) :
  ~ In c (columns df) ->
  filter (fun cs => negb (String.eqb (fst cs) c)) df = df.
Proof.
  induction df as [|[c' s'] df IH]; simpl; intros H; [reflexivity|].
  destruct (String.eqb_spec c' c) as [->|_]; simpl.
  - exfalso. apply H. now left.
  - f_equal. apply IH. intros Hc. apply H. now right.
Qed.

Lemma drop_last (df : DataFrame) (c : string) (s : Series) :
  ~ In c (columns df) -> drop (df ++ [(c, s)]) c = Ok df.
Proof.
  intros H. unfold drop. unfold labelled at 1. rewrite !filter_app.
  rewrite (filter_other_labels df c H). fold (labelled c df).
  rewrite (labelled_absent c df H). simpl.
  rewrite String.eqb_refl. simpl. now rewrite app_nil_r.
Qed.

Lemma NoDup_map_on {A B : Type} (g : A -> B) (l : list A) :
  NoDup l ->
  (forall x y, In x l -> In y l -> g x = g y -> x = y) ->
  NoDup (map g l).
Proof.
  induction l as [|a l IH]; simpl; intros Hnd Hinj; [constructor|].
  inversion Hnd as [|? ? Ha Hnd']; subst. constructor.
  - intros Hin. apply in_map_iff in Hin. destruct Hin as (b & E & Hb).
    apply Hinj in E; [subst; contradiction | now right | now left].
  - apply IH; [assumption|]. intros x y Hx Hy. apply Hinj; now right.
Qed.

Lemma NoDup_append {A : Type} (l1 l2 : list A) :
  NoDup l1 -> NoDup l2 -> (forall a, In a l1 -> ~ In a l2) ->
  NoDup (l1 ++ l2).
Proof.
  induction l1 as [|a l1 IH]; simpl; intros H1 H2 H; [assumption|].
  inversion H1 as [|? ? Ha H1']; subst. constructor.
  - rewrite in_app_iff. intros [Hin|Hin]; [contradiction|].
    apply (H a); [now left | assumption].
  - apply IH; [assumption | assumption |]. intros b Hb. apply H. now right.
Qed.

Lemma series_at_renamed (g : string -> string) (h : string -> Series -> Series)
    (df : DataFrame) (c : string) :
  (forall c', In c' (columns df) -> g c' = g c -> c' = c) ->
  In c (columns df) ->
  series_at (map (fun cs => (g (fst cs), h (fst cs) (snd cs))) df) (g c)
  = h c (series_at df c).
Proof.
  induction df as [|[c' s] df IH]; simpl; intros Hinj Hin; [contradiction|].
  rewrite !series_at_cons. destruct (String.eqb_spec (g c') (g c)) as [E|Hne].
  - apply Hinj in E; [|now left]. subst c'. now rewrite String.eqb_refl.
  - destruct (String.eqb_spec c' c) as [->|Hne']; [congruence|].
    destruct Hin as [E|Hin]; [contradiction|].
    apply IH; [|assumption]. intros c'' Hc''. apply Hinj. now right.
Qed.

Lemma series_at_filter (p : string -> bool) (df : DataFrame) (c : string) :
  p c = true ->
  series_at (filter (fun cs => p (fst cs)) df) c = series_at df c.
Proof.
  intros Hp. induction df as [|[c' s] df IH]; simpl; [reflexivity|].
  destruct (p c') eqn:E; rewrite !series_at_cons.
  - now rewrite IH.
  - destruct (String.eqb_spec c' c) as [->|_]; [congruence | assumption].
Qed.

Lemma series_at_map_series (g : Series -> Series) (df : DataFrame) (c : string) :
  g (mkSeries Object []) = mkSeries Object [] ->
  series_at (map_series g df) c = g (series_at df c).
Proof.
  intros Hg. induction df as [|[c' s] df IH]; simpl.
  - unfold series_at. simpl. now rewrite Hg.
  - rewrite !series_at_cons. simpl. now destruct (String.eqb c' c).
Qed.

Lemma columns_filter (p : string -> bool) (df : DataFrame) :
  columns (filter (fun cs => p (fst cs)) df) = filter p (columns df).
Proof.
  induction df as [|[c s] df IH]; simpl; [reflexivity|].
  destruct (p c); simpl; now rewrite IH.
Qed.

Lemma series_at_map_series_in (g : Series -> Series) (df : DataFrame)
    (c : string) :
  In c (columns df) -> series_at (map_series g df) c = g (series_at df c).
Proof.
  induction df as [|[c' s] df IH]; simpl; intros H; [contradiction|].
  rewrite !series_at_cons. simpl.
  destruct (String.eqb_spec c' c) as [->|Hne]; [reflexivity|].
  destruct H as [E|H]; [contradiction | now apply IH].
Qed.

Lemma columns_renamed {A : Type} (g : string -> string)
    (h : string * A -> Series) (df : list (string * A)) :
  columns (map (fun cs => (g (fst cs), h cs)) df) = map g (map fst df).
Proof. unfold columns. rewrite !map_map. reflexivity. Qed.

(* ================================================================= *)
(** ** The structure of the merged frame *)
Section MergeStructure.

Variable O : RowOrder.

Variables old_df new_df : DataFrame.

Variable on : list string.

Hypothesis V : valid old_df new_df on.

Let ix : indexer := join_rows O old_df new_df on.

Let body : DataFrame := merge_body O old_df new_df on.

Lemma merge_frame_body :
  merge_frame O old_df new_df on = body ++ [("_merge", indicator ix)].
Proof. reflexivity. Qed.

Lemma old_in_new c : In c (columns old_df) -> mem c (columns new_df) = true.
Proof. intros H. apply mem_In. now apply (valid_columns _ _ _ V). Qed.

Lemma old_plain c : In c (columns old_df) -> plain_name c.
Proof.
  intros H. pose proof (valid_names _ _ _ V) as Hn.
  rewrite Forall_forall in Hn. now apply Hn.
Qed.

Lemma on_in_old k : In k on -> In k (columns old_df).
Proof. intros H. now apply (valid_on _ _ _ V). Qed.

Lemma left_name_key k : In k on -> left_name new_df on k = k.
Proof. intros H. unfold left_name. apply mem_In in H. now rewrite H. Qed.

Lemma left_name_value v :
  In v (columns old_df) -> ~ In v on ->
  left_name new_df on v = (v ++ "_x")%string.
Proof.
  intros H Hk. unfold left_name. apply mem_not_In in Hk. rewrite Hk.
  now rewrite old_in_new.
Qed.

Lemma left_name_cases c :
  In c (columns old_df) ->
  (In c on /\ left_name new_df on c = c)
  \/ (~ In c on /\ left_name new_df on c = (c ++ "_x")%string).
Proof.
  intros H. destruct (mem c on) eqn:E.
  - left. apply mem_In in E. split; [assumption | now apply left_name_key].
  - right. apply mem_not_In in E. split; [assumption | now apply left_name_value].
Qed.

Lemma left_name_inj c c' :
  In c (columns old_df) -> In c' (columns old_df) ->
  left_name new_df on c = left_name new_df on c' -> c = c'.
Proof.
  intros H H' E.
  destruct (left_name_cases c H) as [[Hk E1]|[Hk E1]];
    destruct (left_name_cases c' H') as [[Hk' E2]|[Hk' E2]];
    rewrite E1, E2 in E.
  - assumption.
  - exfalso. symmetry in E. revert E. apply suffixed_not_plain.
    apply (old_plain c H).
  - exfalso. revert E. apply suffixed_not_plain. apply (old_plain c' H').
  - now apply append_suffix_inj in E.
Qed.

Lemma left_name_not_plain c c' :
  In c (columns old_df) -> ~ In c on -> plain_name c' ->
  left_name new_df on c <> c'.
Proof.
  intros H Hk [Hp _]. rewrite left_name_value by assumption.
  now apply suffixed_not_plain.
Qed.

Lemma columns_merge_body :
  columns body
  = map (left_name new_df on) (columns old_df)
    ++ filter (fun c => negb (mem c on)) (columns new_df).
Proof.
  unfold body, merge_body, columns. rewrite map_app, !map_map. simpl. f_equal.
  fold (columns (filter (fun cs => negb (mem (fst cs) on)) new_df)).
  apply (columns_filter (fun c => negb (mem c on))).
Qed.

Lemma in_columns_merge_body c :
  In c (columns body) <->
  (exists c', In c' (columns old_df) /\ left_name new_df on c' = c)
  \/ (In c (columns old_df) /\ ~ In c on).
Proof.
  rewrite columns_merge_body, in_app_iff, in_map_iff, filter_In.
  rewrite negb_true_iff, mem_not_In, (valid_columns _ _ _ V).
  split; (intros [(c' & H1 & H2)|H]; [left; exists c'; tauto | right; tauto]).
Qed.

Lemma merge_body_plain c :
  In c (columns body) -> c <> "_merge".
Proof.
  rewrite in_columns_merge_body. intros [(c' & H & E)|[H _]] ->.
  - destruct (left_name_cases c' H) as [[_ E1]|[_ E1]]; rewrite E1 in E.
    + subst c'. apply (old_plain _ H). now left.
    + revert E. now apply suffixed_not_plain.
  - apply (old_plain _ H). now left.
Qed.

Lemma NoDup_columns_merge_body : NoDup (columns body).
Proof.
  rewrite columns_merge_body. apply NoDup_append.
  - apply NoDup_map_on; [apply (valid_old _ _ _ V)|].
    intros x y. apply left_name_inj.
  - apply NoDup_filter. apply (valid_new _ _ _ V).
  - intros c Hc Hf. apply in_map_iff in Hc. destruct Hc as (c' & E & Hc').
    apply filter_In in Hf. destruct Hf as [Hf Hk].
    apply negb_true_iff, mem_not_In in Hk.
    apply (valid_columns _ _ _ V) in Hf.
    destruct (left_name_cases c' Hc') as [[Hk' E1]|[Hk' E1]]; rewrite E1 in E.
    + subst c'. contradiction.
    + revert E. apply suffixed_not_plain. apply (old_plain c Hf).
Qed.

Lemma NoDup_columns_merge_frame :
  NoDup (columns (merge_frame O old_df new_df on)).
Proof.
  rewrite merge_frame_body. unfold columns. rewrite map_app.
  apply NoDup_append.
  - apply NoDup_columns_merge_body.
  - simpl. constructor; [intros [] | constructor].
  - intros c Hc [E|[]]. simpl in E. symmetry in E. revert E.
    now apply merge_body_plain.
Qed.

Lemma series_at_body_key k :
  In k on ->
  series_at body k
  = take_key (series_at old_df k) (series_at new_df k) ix.
Proof.
  intros Hk. pose proof (on_in_old k Hk) as Hin.
  unfold body, merge_body. fold ix. rewrite series_at_app.
  replace (mem k (columns (map _ old_df))) with true.
  - rewrite <- (left_name_key k Hk) at 1.
    rewrite (series_at_renamed (left_name new_df on)
               (fun c s => if mem c on
                           then take_key s (series_at new_df c) ix
                           else take s (map left_row ix)) old_df k).
    + apply mem_In in Hk. now rewrite Hk.
    + intros c' Hc' E. symmetry. now apply left_name_inj.
    + assumption.
  - symmetry. apply mem_In. rewrite columns_renamed.
    apply in_map_iff. exists k. split; [now apply left_name_key | assumption].
Qed.

Lemma series_at_body_old v :
  In v (columns old_df) -> ~ In v on ->
  series_at body (v ++ "_x")
  = take (series_at old_df v) (map left_row ix).
Proof.
  intros Hin Hk. unfold body, merge_body. fold ix. rewrite series_at_app.
  replace (mem (v ++ "_x") (columns (map _ old_df))) with true.
  - rewrite <- (left_name_value v Hin Hk) at 1.
    rewrite (series_at_renamed (left_name new_df on)
               (fun c s => if mem c on
                           then take_key s (series_at new_df c) ix
                           else take s (map left_row ix)) old_df v).
    + apply mem_not_In in Hk. now rewrite Hk.
    + intros c' Hc' E. symmetry. now apply left_name_inj.
    + assumption.
  - symmetry. apply mem_In. rewrite columns_renamed.
    apply in_map_iff. exists v. split; [now apply left_name_value | assumption].
Qed.

Lemma series_at_body_new v :
  In v (columns old_df) -> ~ In v on ->
  series_at body v = take (series_at new_df v) (map right_row ix).
Proof.
  intros Hin Hk. unfold body, merge_body. fold ix. rewrite series_at_app.
  replace (mem v (columns (map _ old_df))) with false.
  - change (map (fun cs : string * Series => (fst cs, take (snd cs) (map right_row ix))))
      with (map_series (fun s => take s (map right_row ix))).
    rewrite series_at_map_series_in.
    + now rewrite (series_at_filter (fun c => negb (mem c on)))
        by (apply negb_true_iff; now apply mem_not_In).
    + rewrite (columns_filter (fun c => negb (mem c on))). apply filter_In.
      split; [now apply (valid_columns _ _ _ V)|].
      apply negb_true_iff. now apply mem_not_In.
  - symmetry. apply mem_not_In. rewrite columns_renamed.
    intros H. apply in_map_iff in H. destruct H as (c' & E & Hc').
    destruct (left_name_cases c' Hc') as [[Hk' E1]|[Hk' E1]]; rewrite E1 in E.
    + subst c'. contradiction.
    + revert E. apply suffixed_not_plain. apply (old_plain v Hin).
Qed.

Lemma series_at_frame_body c :
  c <> "_merge" ->
  series_at (merge_frame O old_df new_df on) c = series_at body c.
Proof.
  intros Hc. rewrite merge_frame_body, series_at_app.
  destruct (mem c (columns body)) eqn:E; [reflexivity|].
  rewrite series_at_cons. apply String.eqb_neq in Hc.
  rewrite String.eqb_sym, Hc. symmetry. apply series_at_absent.
  now apply mem_not_In.
Qed.

Lemma series_at_frame_indicator :
  series_at (merge_frame O old_df new_df on) "_merge" = indicator ix.
Proof.
  rewrite merge_frame_body, series_at_app.
  destruct (mem "_merge" (columns body)) eqn:E.
  - apply mem_In in E. now apply merge_body_plain in E.
  - now rewrite series_at_cons.
Qed.

Lemma merge_ok :
  merge O old_df new_df on = Ok (merge_frame O old_df new_df on).
Proof.
  unfold merge. destruct V as [[Ho _] [Hn _] Hc Hd (Hne & Hnd & Hin) Hp].
  destruct on as [|k0 on'] eqn:Eon; [congruence|]. rewrite <- Eon in *.
  replace (nodupb on) with true by (symmetry; now apply nodupb_NoDup).
  replace (nodupb (columns old_df)) with true
    by (symmetry; now apply nodupb_NoDup).
  replace (nodupb (columns new_df)) with true
    by (symmetry; now apply nodupb_NoDup).
  simpl negb. cbv iota.
  destruct (find _ on) as [k|] eqn:Ef.
  - apply find_some in Ef. destruct Ef as [Hk Hm].
    apply negb_true_iff, andb_false_iff in Hm. exfalso.
    destruct Hm as [Hm|Hm]; apply mem_not_In in Hm; apply Hm.
    + now apply Hin.
    + apply Hc. now apply Hin.
  - destruct (existsb _ reserved) eqn:Er.
    + exfalso. apply existsb_exists in Er. destruct Er as (c & Hr & Hm).
      rewrite Forall_forall in Hp.
      apply orb_true_iff in Hm. destruct Hm as [Hm|Hm]; apply mem_In in Hm.
      * now apply (Hp c Hm).
      * apply Hc in Hm. now apply (Hp c Hm).
    + replace (forallb _ on) with true; [reflexivity|].
      symmetry. apply forallb_forall. intros k Hk.
      rewrite Hd by now apply Hin.
      now destruct (dtype_of (series_at old_df k)).
Qed.

End MergeStructure.

Lemma series_eq_str_left ix :
  series_eq_str (indicator ix) "left_only" = map is_left_only ix.
Proof.
  unfold series_eq_str, indicator. simpl. rewrite map_map.
  apply map_ext. now intros [i|j|i j].
Qed.

Lemma series_eq_str_right ix :
  series_eq_str (indicator ix) "right_only" = map is_right_only ix.
Proof.
  unfold series_eq_str, indicator. simpl. rewrite map_map.
  apply map_ext. now intros [i|j|i j].
Qed.

Lemma series_eq_str_both ix :
  series_eq_str (indicator ix) "both" = map is_both ix.
Proof.
  unfold series_eq_str, indicator. simpl. rewrite map_map.
  apply map_ext. now intros [i|j|i j].
Qed.

Lemma missing_left ix :
  existsb is_none (map left_row ix) = nonempty (rights ix).
Proof.
  induction ix as [|[i|j|i j] ix IH]; simpl; auto.
Qed.

Lemma missing_right ix :
  existsb is_none (map right_row ix) = nonempty (lefts ix).
Proof.
  induction ix as [|[i|j|i j] ix IH]; simpl; auto.
Qed.

Lemma map_lefts {B : Type} (F : joined -> B) (G : nat -> B) ix :
  (forall i, F (LeftOnly i) = G i) ->
  map F (filter is_left_only ix) = map G (lefts ix).
Proof.
  intros H. induction ix as [|[i|j|i j] ix IH]; simpl; auto.
  now rewrite H, IH.
Qed.

Lemma map_rights {B : Type} (F : joined -> B) (G : nat -> B) ix :
  (forall j, F (RightOnly j) = G j) ->
  map F (filter is_right_only ix) = map G (rights ix).
Proof.
  intros H. induction ix as [|[i|j|i j] ix IH]; simpl; auto.
  now rewrite H, IH.
Qed.

Lemma map_boths {B : Type} (F : joined -> B) (G : nat * nat -> B)
    (q : joined -> bool) (q' : nat * nat -> bool) ix :
  (forall i j, F (Both i j) = G (i, j)) ->
  (forall i j, q (Both i j) = q' (i, j)) ->
  map F (filter q (filter is_both ix)) = map G (filter q' (boths ix)).
Proof.
  intros HF Hq. induction ix as [|[i|j|i j] ix IH]; simpl; auto.
  rewrite Hq. destruct (q' (i, j)); simpl; [now rewrite HF, IH | exact IH].
Qed.

Lemma series_at_carried_key p on df k :
  In k on -> series_at (carried p on df) k = series_at df k.
Proof.
  intros Hk. destruct p; simpl; [|reflexivity].
  induction df as [|[c s] df IH]; simpl; [reflexivity|].
  rewrite !series_at_cons. simpl.
  destruct (String.eqb_spec c k) as [->|_]; [|assumption].
  apply mem_In in Hk. now rewrite Hk.
Qed.

Lemma series_at_carried_value on df v :
  In v (columns df) -> ~ In v on ->
  series_at (carried true on df) v = promote_series (series_at df v).
Proof.
  intros Hin Hk. simpl.
  induction df as [|[c s] df IH]; simpl in *; [contradiction|].
  rewrite !series_at_cons. simpl.
  destruct (String.eqb_spec c v) as [->|Hne].
  - apply mem_not_In in Hk. now rewrite Hk.
  - destruct Hin as [E|Hin]; [contradiction | now apply IH].
Qed.

(** A value column after the join, read on the carried frame. *)
Lemma take_carried (side : joined -> option nat) on df v ix :
  In v (columns df) -> ~ In v on ->
  let df' := carried (existsb is_none (map side ix)) on df in
  take (series_at df v) (map side ix)
  = mkSeries (dtype_of (series_at df' v))
      (map (fun p => match side p with
                     | Some i => cell_at df' v i
                     | None => CFloat nan
                     end) ix).
Proof.
  intros Hin Hk df'. unfold take. rewrite map_map.
  subst df'. destruct (existsb is_none (map side ix)).
  - unfold cell_at. rewrite series_at_carried_value by assumption.
    simpl. f_equal. apply map_ext. intros p. destruct (side p); [|reflexivity].
    symmetry.
    change CNone with (promote_cell (dtype_of (series_at df v)) CNone) at 1.
    apply map_nth.
  - reflexivity.
Qed.

Lemma columns_carried p on df : columns (carried p on df) = columns df.
Proof.
  destruct p; simpl; [|reflexivity]. unfold columns. now rewrite map_map.
Qed.

Lemma map_series_compose g1 g2 df :
  map_series g1 (map_series g2 df) = map_series (fun s => g1 (g2 s)) df.
Proof. unfold map_series. now rewrite map_map. Qed.

Lemma map_series_app g df1 df2 :
  map_series g (df1 ++ df2) = map_series g df1 ++ map_series g df2.
Proof. apply map_app. Qed.

(** [{c: c[:-2] for c in cols if '_x' in c}] when the labels are distinct. *)
Lemma dict_set_fresh {V : Type} (d : dict V) k v :
  ~ In k (dict_keys d) -> dict_set d k v = d ++ [(k, v)].
Proof.
  induction d as [|[k' v'] d IH]; simpl; intros H; [reflexivity|].
  destruct (String.eqb_spec k' k) as [->|_].
  - exfalso. apply H. now left.
  - f_equal. apply IH. intros Hin. apply H. now right.
Qed.

Lemma suffix_map_fold (cols : list string) (acc : dict string) :
  NoDup cols -> (forall c, In c cols -> ~ In c (dict_keys acc)) ->
  fold_left
    (fun d c => if contains "_x" c then dict_set d c (drop_last2 c) else d)
    cols acc
  = acc ++ map (fun c => (c, drop_last2 c)) (filter (contains "_x") cols).
Proof.
  revert acc. induction cols as [|c cols IH]; intros acc Hnd Hfresh; simpl.
  - now rewrite app_nil_r.
  - inversion Hnd as [|? ? Hc Hnd']; subst.
    destruct (contains "_x" c) eqn:E.
    + rewrite dict_set_fresh by (apply Hfresh; now left).
      rewrite IH; [now rewrite <- app_assoc | assumption |].
      intros c' Hc' Hin. unfold dict_keys in Hin. rewrite map_app in Hin.
      apply in_app_iff in Hin. destruct Hin as [Hin|[<-|[]]].
      * apply (Hfresh c'); [now right | assumption].
      * contradiction.
    + apply IH; [assumption|]. intros c' Hc'. apply Hfresh. now right.
Qed.

Lemma suffix_map_distinct (cols : list string) :
  NoDup cols ->
  suffix_map cols
  = map (fun c => (c, drop_last2 c)) (filter (contains "_x") cols).
Proof.
  intros H. unfold suffix_map. now rewrite suffix_map_fold.
Qed.

Lemma dict_get_suffixed_plain (vs : list string) (k : string) :
  contains "_x" k = false ->
  dict_get (map (fun v => ((v ++ "_x")%string, v)) vs) k = None.
Proof.
  intros Hk. induction vs as [|v vs IH]; simpl; [reflexivity|].
  destruct (String.eqb_spec (v ++ "_x") k) as [E|_]; [|assumption].
  exfalso. revert E. now apply suffixed_not_plain.
Qed.

Lemma dict_get_suffixed (vs : list string) (v : string) :
  In v vs ->
  dict_get (map (fun v => ((v ++ "_x")%string, v)) vs) (v ++ "_x") = Some v.
Proof.
  induction vs as [|v' vs IH]; simpl; intros H; [contradiction|].
  destruct (String.eqb_spec (v' ++ "_x") (v ++ "_x")) as [E|Hne].
  - apply append_suffix_inj in E. now subst.
  - destruct H as [->|H]; [congruence | now apply IH].
Qed.

(** The row-wise "or" of masks computed over one list of rows. *)
Lemma fold_map2_orb {A B : Type} (g : B -> A -> bool) (h : A -> bool)
    (vs : list B) (l : list A) :
  fold_left (map2 orb) (map (fun v => map (g v) l) vs) (map h l)
  = map (fun p => h p || existsb (fun v => g v p) vs) l.
Proof.
  revert h. induction vs as [|v vs IH]; intros h; simpl.
  - apply map_ext. intros p. now rewrite orb_false_r.
  - rewrite map2_map, IH. apply map_ext. intros p. now rewrite orb_assoc.
Qed.

Lemma dtype_name_float64 d :
  String.eqb (dtype_name d) "float64" = true -> d = Float64.
Proof. now destruct d. Qed.

(* ================================================================= *)
(** ** [compare_dfs] on valid inputs, step by step *)
Section Run.

Variable O : RowOrder.

Variables old_df new_df : DataFrame.

Variable on : list string.

Hypothesis V : valid old_df new_df on.

Let ix : indexer := join_rows O old_df new_df on.

Let comp1 : DataFrame := merge_frame O old_df new_df on.

Let body : DataFrame := merge_body O old_df new_df on.

Let val_cols : list string := val_cols_of old_df on.

Let old' : DataFrame := carried (nonempty (rights ix)) on old_df.

Let new' : DataFrame := carried (nonempty (lefts ix)) on new_df.

(** What line 43 and 44 do to a column of [comp1]. *)
Let both_nan (s : Series) : Series :=
  nan_series (mask_series (map is_both ix) s).

Let comp2 : DataFrame := map_series both_nan body.

Lemma val_cols_spec v :
  In v val_cols <-> In v (columns old_df) /\ ~ In v on.
Proof.
  unfold val_cols, val_cols_of. rewrite filter_In, negb_true_iff, mem_not_In.
  tauto.
Qed.

Lemma NoDup_val_cols : NoDup val_cols.
Proof. apply NoDup_filter. apply (valid_old _ _ _ V). Qed.

Lemma key_in_body k : In k on -> In k (columns body).
Proof.
  intros Hk. apply (in_columns_merge_body O _ _ _ V). left. exists k.
  split; [now apply (on_in_old _ _ _ V) | now apply left_name_key].
Qed.

Lemma value_in_body v : In v val_cols -> In v (columns body).
Proof.
  intros Hv. apply val_cols_spec in Hv.
  apply (in_columns_merge_body O _ _ _ V). now right.
Qed.

Lemma suffixed_in_body v : In v val_cols -> In (v ++ "_x")%string (columns body).
Proof.
  intros Hv. apply val_cols_spec in Hv. destruct Hv as [Hin Hk].
  apply (in_columns_merge_body O _ _ _ V). left. exists v.
  split; [assumption | now apply (left_name_value _ _ _ V)].
Qed.

Lemma old_column_in_body c : In c (columns old_df) -> In c (columns body).
Proof.
  intros H. destruct (mem c on) eqn:E.
  - apply key_in_body. now apply mem_In.
  - apply value_in_body. apply val_cols_spec. split; [assumption|].
    now apply mem_not_In.
Qed.

Lemma in_comp1 c : In c (columns body) -> In c (columns comp1).
Proof.
  intros H. unfold comp1. rewrite merge_frame_body. unfold columns.
  rewrite map_app. apply in_or_app. now left.
Qed.

Lemma series_at_comp1 c :
  In c (columns body) -> series_at comp1 c = series_at body c.
Proof.
  intros H. apply series_at_frame_body.
  now apply (merge_body_plain O _ _ _ V).
Qed.

(** Line 39: the merge succeeds, and line 41 to 43 read its indicator. *)
Lemma run_indicator :
  (x <- getitem comp1 "_merge" ;; as_series x) = Ok (indicator ix).
Proof.
  rewrite getitem_distinct.
  - simpl. f_equal. now apply (series_at_frame_indicator O _ _ _ V).
  - now apply (NoDup_columns_merge_frame O _ _ _ V).
  - unfold comp1. rewrite merge_frame_body. unfold columns. rewrite map_app.
    apply in_or_app. right. now left.
Qed.

Lemma mask_series_take_key mask l r :
  mask_series (map mask ix) (take_key l r ix)
  = mkSeries (dtype_of l)
      (map (fun p => match p with
                     | LeftOnly i | Both i _ => nth i (values l) CNone
                     | RightOnly j => nth j (values r) CNone
                     end) (filter mask ix)).
Proof.
  unfold mask_series, take_key. simpl. now rewrite mask_filter_map.
Qed.

(** Line 41: [rem1]. *)
Lemma run_rem1 :
  loc comp1 (map is_left_only ix) on = Ok (rows_at old_df on (lefts ix)).
Proof.
  unfold loc. rewrite select_distinct.
  - simpl. f_equal. rewrite mask_rows_frame_of. apply frame_of_ext.
    intros k Hk. rewrite series_at_comp1 by now apply key_in_body.
    unfold body. rewrite (series_at_body_key _ _ _ _ V) by assumption.
    fold ix. rewrite mask_series_take_key. f_equal.
    now apply map_lefts.
  - now apply (NoDup_columns_merge_frame O _ _ _ V).
  - intros k Hk. now apply in_comp1, key_in_body.
Qed.

Lemma dtype_carried_key p c :
  In c on -> In c (columns old_df) ->
  dtype_of (series_at (carried p on new_df) c) = dtype_of (series_at old_df c).
Proof.
  intros Hk Hc. rewrite series_at_carried_key by assumption.
  now apply (valid_dtypes _ _ _ V).
Qed.

Lemma new_value_column v :
  In v val_cols ->
  series_at body v
  = mkSeries (dtype_of (series_at new' v))
      (map (fun p => match right_row p with
                     | Some j => cell_at new' v j
                     | None => CFloat nan
                     end) ix).
Proof.
  intros Hv. apply val_cols_spec in Hv. destruct Hv as [Hin Hk].
  unfold body. rewrite (series_at_body_new _ _ _ _ V) by assumption.
  fold ix. unfold new'. rewrite <- missing_right.
  apply take_carried; [now apply (valid_columns _ _ _ V) | assumption].
Qed.

Lemma old_value_column v :
  In v val_cols ->
  series_at body (v ++ "_x")
  = mkSeries (dtype_of (series_at old' v))
      (map (fun p => match left_row p with
                     | Some i => cell_at old' v i
                     | None => CFloat nan
                     end) ix).
Proof.
  intros Hv. apply val_cols_spec in Hv. destruct Hv as [Hin Hk].
  unfold body. rewrite (series_at_body_old _ _ _ _ V) by assumption.
  fold ix. unfold old'. rewrite <- missing_left.
  now apply take_carried.
Qed.

Lemma key_column k :
  In k on ->
  series_at body k
  = mkSeries (dtype_of (series_at new' k))
      (map (fun p => match p with
                     | LeftOnly i | Both i _ => cell_at old_df k i
                     | RightOnly j => cell_at new' k j
                     end) ix).
Proof.
  intros Hk. unfold body. rewrite (series_at_body_key _ _ _ _ V) by assumption.
  fold ix. unfold take_key, new'.
  rewrite dtype_carried_key by (try apply (on_in_old _ _ _ V); assumption).
  f_equal. apply map_ext. intros [i|j|i j]; try reflexivity.
  unfold cell_at. now rewrite series_at_carried_key.
Qed.

(** Line 42: [add1]. *)
Lemma run_add1 :
  loc comp1 (map is_right_only ix) (columns old_df)
  = Ok (rows_at new' (columns old_df) (rights ix)).
Proof.
  unfold loc. rewrite select_distinct.
  - simpl. f_equal. rewrite mask_rows_frame_of. apply frame_of_ext.
    intros c Hc. rewrite series_at_comp1 by now apply old_column_in_body.
    destruct (mem c on) eqn:E.
    + apply mem_In in E. rewrite key_column by assumption.
      unfold mask_series. simpl. rewrite mask_filter_map. f_equal.
      now apply map_rights.
    + apply mem_not_In in E. rewrite new_value_column
        by (apply val_cols_spec; now split).
      unfold mask_series. simpl. rewrite mask_filter_map. f_equal.
      now apply map_rights.
  - now apply (NoDup_columns_merge_frame O _ _ _ V).
  - intros c Hc. now apply in_comp1, old_column_in_body.
Qed.

(** Lines 43 and 44: [comp2]. *)
Lemma run_drop :
  drop (mask_rows comp1 (map is_both ix)) "_merge"
  = Ok (mask_rows body (map is_both ix)).
Proof.
  unfold comp1. rewrite merge_frame_body.
  change (mask_rows ?df ?m) with (map_series (mask_series m) df).
  rewrite map_series_app. simpl map_series at 2. simpl fst.
  rewrite drop_last; [reflexivity|].
  rewrite columns_map_series. intros H.
  now apply (merge_body_plain O _ _ _ V) in H.
Qed.

Lemma run_setitem :
  setitem_isnull_nan (mask_rows body (map is_both ix)) = comp2.
Proof.
  change setitem_isnull_nan with (map_series nan_series).
  change (mask_rows ?df ?m) with (map_series (mask_series m) df).
  apply map_series_compose.
Qed.

Lemma columns_comp2 : columns comp2 = columns body.
Proof. apply columns_map_series. Qed.

Lemma NoDup_columns_comp2 : NoDup (columns comp2).
Proof.
  rewrite columns_comp2. now apply (NoDup_columns_merge_body O _ _ _ V).
Qed.

Lemma series_at_comp2 c :
  In c (columns body) -> series_at comp2 c = both_nan (series_at body c).
Proof. apply series_at_map_series_in. Qed.

Lemma both_nan_map d (F : joined -> cell) :
  both_nan (mkSeries d (map F ix))
  = mkSeries d (map (fun p => null_to_nan (F p)) (filter is_both ix)).
Proof.
  unfold both_nan, nan_series, mask_series. simpl.
  now rewrite mask_filter_map, map_map.
Qed.

Lemma filter_none {A : Type} (p : A -> bool) (l : list A) :
  (forall x, In x l -> p x = false) -> filter p l = [].
Proof.
  induction l as [|a l IH]; simpl; intros H; [reflexivity|].
  rewrite (H a) by now left. apply IH. intros x Hx. apply H. now right.
Qed.

Lemma filter_suffixed (cols : list string) :
  incl cols (columns old_df) ->
  filter (contains "_x") (map (left_name new_df on) cols)
  = map (fun v => (v ++ "_x")%string)
        (filter (fun c => negb (mem c on)) cols).
Proof.
  induction cols as [|c cols IH]; simpl; intros Hin; [reflexivity|].
  assert (Hc : In c (columns old_df)) by (apply Hin; now left).
  rewrite IH by (intros x Hx; apply Hin; now right).
  destruct (left_name_cases _ _ _ V c Hc) as [[Hk E]|[Hk E]]; rewrite E.
  - destruct (old_plain _ _ _ V c Hc) as [Hp _]. rewrite Hp.
    apply mem_In in Hk. now rewrite Hk.
  - rewrite contains_append. apply mem_not_In in Hk. now rewrite Hk.
Qed.

(** Line 47: [old_cols_map]. *)
Lemma run_suffix_map :
  suffix_map (columns comp2)
  = map (fun v => ((v ++ "_x")%string, v)) val_cols.
Proof.
  rewrite suffix_map_distinct by apply NoDup_columns_comp2.
  rewrite columns_comp2. unfold body.
  rewrite columns_merge_body, filter_app.
  rewrite filter_suffixed by apply incl_refl.
  rewrite (filter_none (contains "_x")
             (filter (fun c => negb (mem c on)) (columns new_df))).
  - rewrite app_nil_r, map_map. apply map_ext. intros v.
    now rewrite drop_last2_suffix.
  - intros c Hc. apply filter_In in Hc. destruct Hc as [Hc _].
    apply (valid_columns _ _ _ V) in Hc.
    now destruct (old_plain _ _ _ V c Hc).
Qed.

Let old_set : DataFrame :=
  frame_of on (series_at comp2)
  ++ frame_of val_cols (fun v => series_at comp2 (v ++ "_x")).

Let new_set : DataFrame := frame_of (columns old_df) (series_at comp2).

(** Lines 46 to 50: [old_set]. *)
Lemma run_old_set :
  (x <- select comp2 (on ++ dict_keys (suffix_map (columns comp2))) ;;
   Ok (rename x (suffix_map (columns comp2)))) = Ok old_set.
Proof.
  rewrite run_suffix_map. unfold dict_keys. rewrite map_map. simpl.
  rewrite select_distinct.
  - cbn [bind]. f_equal. unfold old_set, frame_of, rename.
    rewrite map_app, !map_app, !map_map. simpl. f_equal.
    + apply map_ext_in. intros k Hk.
      rewrite dict_get_suffixed_plain; [reflexivity|].
      apply (old_plain _ _ _ V). now apply (on_in_old _ _ _ V).
    + apply map_ext_in. intros v Hv. now rewrite dict_get_suffixed.
  - apply NoDup_columns_comp2.
  - intros c Hc. rewrite columns_comp2. apply in_app_iff in Hc.
    destruct Hc as [Hc|Hc].
    + now apply key_in_body.
    + apply in_map_iff in Hc. destruct Hc as (v & <- & Hv).
      now apply suffixed_in_body.
Qed.

(** Line 51: [new_set]. *)
Lemma run_new_set : select comp2 (columns old_df) = Ok new_set.
Proof.
  apply select_distinct; [apply NoDup_columns_comp2|].
  intros c Hc. rewrite columns_comp2. now apply old_column_in_body.
Qed.

Lemma columns_old_set : columns old_set = on ++ val_cols.
Proof.
  unfold old_set, columns. rewrite map_app.
  fold (columns (frame_of on (series_at comp2))).
  fold (columns (frame_of val_cols (fun v => series_at comp2 (v ++ "_x")))).
  now rewrite !columns_frame_of.
Qed.

Lemma NoDup_columns_old_set : NoDup (columns old_set).
Proof.
  rewrite columns_old_set. apply NoDup_append.
  - apply (valid_on _ _ _ V).
  - apply NoDup_val_cols.
  - intros k Hk Hv. apply val_cols_spec in Hv. now destruct Hv.
Qed.

Lemma old_set_column v :
  In v val_cols ->
  series_at old_set v
  = mkSeries (dtype_of (series_at old' v))
      (map (fun p => null_to_nan match left_row p with
                                 | Some i => cell_at old' v i
                                 | None => CFloat nan
                                 end) (filter is_both ix)).
Proof.
  intros Hv. unfold old_set. rewrite series_at_app, columns_frame_of.
  replace (mem v on) with false
    by (symmetry; apply mem_not_In; now apply val_cols_spec in Hv).
  rewrite series_at_frame_of by assumption.
  rewrite series_at_comp2 by now apply suffixed_in_body.
  rewrite old_value_column by assumption. apply both_nan_map.
Qed.

Lemma new_set_column v :
  In v val_cols ->
  series_at new_set v
  = mkSeries (dtype_of (series_at new' v))
      (map (fun p => null_to_nan match right_row p with
                                 | Some j => cell_at new' v j
                                 | None => CFloat nan
                                 end) (filter is_both ix)).
Proof.
  intros Hv. unfold new_set.
  rewrite series_at_frame_of by now apply val_cols_spec in Hv.
  rewrite series_at_comp2 by now apply value_in_body.
  rewrite new_value_column by assumption. apply both_nan_map.
Qed.

Lemma dtype_carried_value p df v :
  In v (columns df) -> ~ In v on ->
  dtype_of (series_at (carried p on df) v)
  = if p then promote_dtype (dtype_of (series_at df v))
    else dtype_of (series_at df v).
Proof.
  intros Hin Hk. destruct p; [|reflexivity].
  now rewrite series_at_carried_value.
Qed.

(** When the old column is float64 the new one is numeric: [np.isclose]
    does not raise. *)
Lemma numeric_new v :
  In v val_cols ->
  dtype_of (series_at old' v) = Float64 ->
  numeric_dtype (dtype_of (series_at new' v)) = true.
Proof.
  intros Hv. apply val_cols_spec in Hv. destruct Hv as [Hin Hk].
  unfold old', new'. rewrite !dtype_carried_value;
    try assumption; try now apply (valid_columns _ _ _ V).
  rewrite (valid_dtypes _ _ _ V) by assumption.
  destruct (dtype_of (series_at old_df v)), (nonempty (rights ix)),
    (nonempty (lefts ix)); simpl; congruence.
Qed.

(** The flag of column [v] on a row of the join. *)
Let chg (v : string) (p : joined) : bool :=
  match p with
  | Both i j => col_changed old' new' v i j
  | _ => false
  end.

Lemma in_both p : In p (filter is_both ix) -> exists i j, p = Both i j.
Proof.
  intros H. apply filter_In in H. destruct H as [_ H].
  destruct p as [i|j|i j]; try discriminate. now exists i, j.
Qed.

(** Lines 55 to 60: one pass of the loop. *)
Lemma run_column v :
  In v val_cols ->
  compare_column old_set new_set v = Ok (map (chg v) (filter is_both ix)).
Proof.
  intros Hv. unfold compare_column.
  rewrite getitem_distinct;
    [| apply NoDup_columns_old_set
     | rewrite columns_old_set; apply in_or_app; now right].
  cbn [bind item_dtype].
  rewrite getitem_distinct;
    [| unfold new_set; rewrite columns_frame_of; apply (valid_old _ _ _ V)
     | unfold new_set; rewrite columns_frame_of; now apply val_cols_spec in Hv].
  cbn [bind as_series].
  rewrite old_set_column, new_set_column by assumption.
  cbn [dtype_of].
  destruct (String.eqb (dtype_name (dtype_of (series_at old' v))) "float64")
    eqn:Ed.
  - unfold not_isclose. cbn [dtype_of values].
    rewrite (dtype_name_float64 _ Ed) at 1.
    rewrite numeric_new by (try apply dtype_name_float64; assumption).
    cbn [numeric_dtype andb bind]. f_equal.
    unfold notnull_either. cbn [values]. rewrite !map2_map.
    apply map_ext_in. intros p Hp. apply in_both in Hp.
    destruct Hp as (i & j & ->). unfold chg, col_changed, changed.
    now rewrite Ed.
  - cbn [bind]. f_equal. unfold series_ne, notnull_either. cbn [values].
    rewrite !map2_map.
    apply map_ext_in. intros p Hp. apply in_both in Hp.
    destruct Hp as (i & j & ->). unfold chg, col_changed, changed.
    now rewrite Ed.
Qed.

(** Lines 53 to 61: the loop. *)
Lemma run_loop vs acc :
  incl vs val_cols ->
  compare_columns old_set new_set vs acc
  = Ok (acc ++ map (fun v => map (chg v) (filter is_both ix)) vs).
Proof.
  revert acc. induction vs as [|v vs IH]; intros acc Hin; simpl.
  - now rewrite app_nil_r.
  - rewrite run_column by (apply Hin; now left). cbn [bind].
    rewrite IH by (intros x Hx; apply Hin; now right).
    now rewrite <- app_assoc.
Qed.

(** Line 62: [comp_index]. *)
Lemma run_comp_index :
  val_cols <> [] ->
  (comp_list <- compare_columns old_set new_set val_cols [] ;;
   concat_any comp_list)
  = Ok (map (fun p => existsb (fun v => chg v p) val_cols)
            (filter is_both ix)).
Proof.
  intros Hne. rewrite run_loop by apply incl_refl. cbn [bind app].
  destruct val_cols as [|v vs]; [congruence|]. simpl. f_equal.
  apply fold_map2_orb.
Qed.

(** Line 63: [diff_set]. *)
Lemma run_diff :
  mask_rows new_set
    (map (fun p => existsb (fun v => chg v p) val_cols) (filter is_both ix))
  = diff_rows old_df new' on (filter (row_changed old' new' on) (boths ix)).
Proof.
  unfold new_set, diff_rows. rewrite mask_rows_frame_of.
  apply frame_of_ext. intros c Hc.
  rewrite series_at_comp2 by now apply old_column_in_body.
  assert (Hq : forall i j,
             existsb (fun v => chg v (Both i j)) val_cols
             = row_changed old' new' on (i, j)).
  { intros i j. unfold row_changed, val_cols_of, old'.
    now rewrite columns_carried. }
  destruct (mem c on) eqn:E.
  - apply mem_In in E. rewrite key_column by assumption.
    rewrite both_nan_map. unfold mask_series. cbn [dtype_of values].
    rewrite mask_filter_map. f_equal. now apply map_boths.
  - apply mem_not_In in E.
    rewrite new_value_column by (apply val_cols_spec; now split).
    rewrite both_nan_map. unfold mask_series. cbn [dtype_of values].
    rewrite mask_filter_map. f_equal. now apply map_boths.
Qed.

(** The whole of [compare_dfs], on valid inputs that have a value column:
    [remove] is the rows of [old_df] that have no match, on the key
    columns; [new] is the rows of [new_df] that have no match; [diff] is,
    for the matched pairs in which some value column has changed, the new
    values under the old key. *)
Lemma compare_dfs_run :
  val_cols <> [] ->
  compare_dfs O old_df new_df on
  = Ok (mkComparison
          (diff_rows old_df new' on
             (filter (row_changed old' new' on) (boths ix)))
          (rows_at new' (columns old_df) (rights ix))
          (rows_at old_df on (lefts ix))).
Proof.
  intros Hne. unfold compare_dfs.
  replace (existsb (fun c => mem c (columns new_df)) (columns old_df))
    with true.
  - cbn [negb]. cbv zeta. rewrite (merge_ok O _ _ _ V). cbn [bind].
    fold comp1. rewrite run_indicator. cbn [bind as_series].
    rewrite series_eq_str_left, series_eq_str_right, series_eq_str_both.
    fold ix. rewrite run_rem1. cbn [bind]. rewrite run_add1. cbn [bind].
    rewrite run_drop. cbn [bind]. rewrite run_setitem.
    pose proof run_old_set as Hold. unfold bind in Hold at 1.
    destruct (select comp2 (on ++ dict_keys (suffix_map (columns comp2))))
      as [x|e]; [|discriminate].
    cbn [bind]. injection Hold as ->.
    rewrite run_new_set. cbn [bind].
    pose proof (run_comp_index Hne) as Hidx. unfold bind in Hidx at 1.
    fold val_cols.
    change (filter (fun c => negb (mem c on)) (columns old_df)) with val_cols.
    destruct (compare_columns old_set new_set val_cols []) as [cl|e];
      [|discriminate].
    cbn [bind]. rewrite Hidx. cbn [bind]. now rewrite run_diff.
  - symmetry. apply existsb_exists.
    destruct (valid_on _ _ _ V) as (Hon & _ & Hin).
    destruct on as [|k on']; [congruence|]. exists k.
    split; [apply Hin; now left|].
    apply (old_in_new _ _ _ V). apply Hin. now left.
Qed.

(** Without a value column the loop leaves [comp_list] empty, and line 62
    raises. *)
Lemma compare_dfs_run_keys_only :
  val_cols = [] ->
  compare_dfs O old_df new_df on
  = Raise (ValueError "No objects to concatenate").
Proof.
  intros Hnil. unfold compare_dfs.
  replace (existsb (fun c => mem c (columns new_df)) (columns old_df))
    with true.
  - cbn [negb]. cbv zeta. rewrite (merge_ok O _ _ _ V). cbn [bind].
    fold comp1. rewrite run_indicator. cbn [bind as_series].
    rewrite series_eq_str_left, series_eq_str_right, series_eq_str_both.
    fold ix. rewrite run_rem1. cbn [bind]. rewrite run_add1. cbn [bind].
    rewrite run_drop. cbn [bind]. rewrite run_setitem.
    pose proof run_old_set as Hold. unfold bind in Hold at 1.
    destruct (select comp2 (on ++ dict_keys (suffix_map (columns comp2))))
      as [x|e]; [|discriminate].
    cbn [bind]. injection Hold as ->.
    rewrite run_new_set. cbn [bind].
    change (filter (fun c => negb (mem c on)) (columns old_df)) with val_cols.
    rewrite Hnil. reflexivity.
  - symmetry. apply existsb_exists.
    destruct (valid_on _ _ _ V) as (Hon & _ & Hin).
    destruct on as [|k on']; [congruence|]. exists k.
    split; [apply Hin; now left|].
    apply (old_in_new _ _ _ V). apply Hin. now left.
Qed.

End Run.

(* ================================================================= *)
(** ** The rows of the outer join *)
Lemma lefts_app a b : lefts (a ++ b) = lefts a ++ lefts b.
Proof. apply flat_map_app. Qed.

Lemma rights_app a b : rights (a ++ b) = rights a ++ rights b.
Proof. apply flat_map_app. Qed.

Lemma boths_app a b : boths (a ++ b) = boths a ++ boths b.
Proof. apply flat_map_app. Qed.

Lemma flat_map_option {A B : Type} (q : A -> bool) (g : A -> B) (l : list A) :
  flat_map (fun a => if q a then [g a] else []) l = map g (filter q l).
Proof.
  induction l as [|a l IH]; simpl; [reflexivity|].
  destruct (q a); simpl; now rewrite IH.
Qed.

Lemma filter_nil_existsb {A : Type} (p : A -> bool) (l : list A) :
  existsb p l = nonempty (filter p l).
Proof.
  induction l as [|a l IH]; simpl; [reflexivity|]. now destruct (p a).
Qed.

Lemma lefts_Both i js : lefts (map (Both i) js) = [].
Proof. induction js; simpl; auto. Qed.

Lemma rights_Both i js : rights (map (Both i) js) = [].
Proof. induction js; simpl; auto. Qed.

Lemma boths_Both i js : boths (map (Both i) js) = map (pair i) js.
Proof. induction js; simpl; congruence. Qed.

Lemma lefts_RightOnly js : lefts (map RightOnly js) = [].
Proof. induction js; simpl; auto. Qed.

Lemma rights_RightOnly js : rights (map RightOnly js) = js.
Proof. induction js; simpl; congruence. Qed.

Lemma boths_RightOnly js : boths (map RightOnly js) = [].
Proof. induction js; simpl; auto. Qed.

Lemma existsb_seq (p : nat -> bool) (n : nat) :
  existsb p (seq 0 n) = true <-> exists k, k < n /\ p k = true.
Proof.
  rewrite existsb_exists. split; intros (k & H1 & H2); exists k.
  - apply in_seq in H1. split; [lia | assumption].
  - split; [apply in_seq; lia | assumption].
Qed.

Lemma NoDup_pairs (l : list nat) (f : nat -> list nat) :
  NoDup l -> (forall i, NoDup (f i)) ->
  NoDup (flat_map (fun i => map (pair i) (f i)) l).
Proof.
  intros Hl Hf. induction Hl as [|i l Hi Hl IH]; simpl; [constructor|].
  apply NoDup_append.
  - apply NoDup_map_on; [apply Hf | congruence].
  - exact IH.
  - intros [a b] Ha Hb. apply in_map_iff in Ha.
    destruct Ha as (b' & E & _). injection E as <- <-.
    apply in_flat_map in Hb. destruct Hb as (i' & Hi' & Hb).
    apply in_map_iff in Hb. destruct Hb as (b'' & E & _).
    injection E as <- _. contradiction.
Qed.

Section Indexer.

Variables left right : DataFrame.

Variable on : list string.

Let nl := nrows left.

Let nr := nrows right.

Let m := matches left right on.

Lemma lefts_join_pairs :
  lefts (join_pairs left right on)
  = filter (fun i => negb (existsb (m i) (seq 0 nr))) (seq 0 nl).
Proof.
  unfold join_pairs. rewrite lefts_app, lefts_RightOnly, app_nil_r.
  subst m nr nl.
  induction (seq 0 (nrows left)) as [|i l IH]; [reflexivity|].
  cbn [flat_map filter]. rewrite lefts_app, IH, filter_nil_existsb.
  destruct (filter (matches left right on i) (seq 0 (nrows right)))
    as [|j js]; [reflexivity|].
  now rewrite lefts_Both.
Qed.

Lemma rights_join_pairs :
  rights (join_pairs left right on)
  = filter (fun j => negb (existsb (fun i => m i j) (seq 0 nl))) (seq 0 nr).
Proof.
  unfold join_pairs. rewrite rights_app, rights_RightOnly.
  replace (rights (flat_map _ (seq 0 (nrows left)))) with (@nil nat);
    [reflexivity|].
  induction (seq 0 (nrows left)) as [|i l IH]; [reflexivity|].
  cbn [flat_map]. rewrite rights_app, <- IH, app_nil_r.
  destruct (filter (matches left right on i) (seq 0 (nrows right)))
    as [|j js]; [reflexivity|].
  now rewrite rights_Both.
Qed.

Lemma boths_join_pairs :
  boths (join_pairs left right on)
  = flat_map (fun i => map (pair i) (filter (m i) (seq 0 nr))) (seq 0 nl).
Proof.
  unfold join_pairs. rewrite boths_app, boths_RightOnly, app_nil_r.
  subst m nr nl.
  induction (seq 0 (nrows left)) as [|i l IH]; [reflexivity|].
  cbn [flat_map]. rewrite boths_app, IH. f_equal.
  destruct (filter (matches left right on i) (seq 0 (nrows right)))
    as [|j js]; [reflexivity|].
  now rewrite boths_Both.
Qed.

Variable O : RowOrder.

Let ix := join_rows O left right on.

Lemma lefts_perm :
  Permutation (lefts ix)
    (filter (fun i => negb (existsb (m i) (seq 0 nr))) (seq 0 nl)).
Proof.
  rewrite <- lefts_join_pairs. apply Permutation_flat_map.
  apply join_order_perm.
Qed.

Lemma rights_perm :
  Permutation (rights ix)
    (filter (fun j => negb (existsb (fun i => m i j) (seq 0 nl))) (seq 0 nr)).
Proof.
  rewrite <- rights_join_pairs. apply Permutation_flat_map.
  apply join_order_perm.
Qed.

Lemma boths_perm :
  Permutation (boths ix)
    (flat_map (fun i => map (pair i) (filter (m i) (seq 0 nr))) (seq 0 nl)).
Proof.
  rewrite <- boths_join_pairs. apply Permutation_flat_map.
  apply join_order_perm.
Qed.

Lemma in_lefts i : In i (lefts ix) <-> i < nl /\ ~ matched_left left right on i.
Proof.
  rewrite (Permutation_in' (eq_refl i) lefts_perm).
  rewrite filter_In, in_seq, negb_true_iff, <- not_true_iff_false.
  rewrite existsb_seq. unfold matched_left. intuition lia.
Qed.

Lemma in_rights j : In j (rights ix) <-> j < nr /\ ~ matched_right left right on j.
Proof.
  rewrite (Permutation_in' (eq_refl j) rights_perm).
  rewrite filter_In, in_seq, negb_true_iff, <- not_true_iff_false.
  rewrite existsb_seq. unfold matched_right. intuition lia.
Qed.

Lemma in_boths i j :
  In (i, j) (boths ix) <-> i < nl /\ j < nr /\ m i j = true.
Proof.
  rewrite (Permutation_in' (eq_refl (i, j)) boths_perm).
  rewrite in_flat_map. split.
  - intros (i' & Hi & Hin). apply in_map_iff in Hin.
    destruct Hin as (j' & E & Hj). injection E as -> ->.
    apply filter_In in Hj. destruct Hj as [Hj Hm].
    apply in_seq in Hi, Hj. repeat split; [lia | lia | assumption].
  - intros (Hi & Hj & Hm). exists i. split; [apply in_seq; lia|].
    apply in_map. apply filter_In. split; [apply in_seq; lia | assumption].
Qed.

Lemma NoDup_lefts : NoDup (lefts ix).
Proof.
  apply (Permutation_NoDup (Permutation_sym lefts_perm)).
  apply NoDup_filter, seq_NoDup.
Qed.

Lemma NoDup_rights : NoDup (rights ix).
Proof.
  apply (Permutation_NoDup (Permutation_sym rights_perm)).
  apply NoDup_filter, seq_NoDup.
Qed.

Lemma NoDup_boths : NoDup (boths ix).
Proof.
  apply (Permutation_NoDup (Permutation_sym boths_perm)).
  apply NoDup_pairs; [apply seq_NoDup|].
  intros i. apply NoDup_filter, seq_NoDup.
Qed.

End Indexer.

(** [compare_dfs] in closed form. *)
Theorem compare_dfs_closed (O : RowOrder) (old_df new_df : DataFrame)
    (on : list string) :
  valid old_df new_df on -> has_value_column old_df on ->
  compare_dfs O old_df new_df on
  = Ok (mkComparison
          (diff_rows old_df (carried_new O old_df new_df on) on
             (diff_pairs O old_df new_df on))
          (rows_at (carried_new O old_df new_df on) (columns old_df)
             (added_rows O old_df new_df on))
          (rows_at old_df on (removed_rows O old_df new_df on))).
Proof.
  intros V Hv. now apply compare_dfs_run.
Qed.

Lemma no_elements {A : Type} (l : list A) : (forall x, ~ In x l) -> l = [].
Proof.
  destruct l as [|a l]; [reflexivity|]. intros H. exfalso.
  apply (H a). now left.
Qed.

Lemma filter_all {A : Type} (p : A -> bool) (l : list A) :
  (forall x, In x l -> p x = true) -> filter p l = l.
Proof.
  induction l as [|a l IH]; simpl; intros H; [reflexivity|].
  rewrite (H a) by now left. f_equal. apply IH. intros x Hx. apply H.
  now right.
Qed.

Lemma key_eqb_refl (c : cell) : key_eqb c c = true.
Proof.
  destruct c as [|f|z|s|b]; simpl.
  - reflexivity.
  - unfold is_nan. now destruct (f =? f)%float.
  - apply Z.eqb_refl.
  - apply String.eqb_refl.
  - now destruct b.
Qed.

Lemma matches_refl (df : DataFrame) (on : list string) (i : nat) :
  matches df df on i i = true.
Proof.
  unfold matches, keys_eqb, key_at.
  induction on as [|k on IH]; simpl; [reflexivity|].
  now rewrite key_eqb_refl, IH.
Qed.

Lemma in_series_at (df : DataFrame) (c : string) :
  In c (columns df) -> In (c, series_at df c) df.
Proof.
  induction df as [|[c' s] df IH]; simpl; intros H; [contradiction|].
  rewrite series_at_cons. destruct (String.eqb_spec c' c) as [->|Hne].
  - now left.
  - right. destruct H as [E|H]; [contradiction | now apply IH].
Qed.

Lemma wf_column (df : DataFrame) (c : string) :
  wf_frame df -> In c (columns df) -> wf_series (nrows df) (series_at df c).
Proof.
  intros [_ H] Hc. rewrite Forall_forall in H.
  apply (H (c, series_at df c)). now apply in_series_at.
Qed.

Lemma wf_cell (df : DataFrame) (c : string) (i : nat) :
  wf_frame df -> In c (columns df) -> i < nrows df ->
  cell_ok (dtype_of (series_at df c)) (cell_at df c i) = true.
Proof.
  intros Hwf Hc Hi. destruct (wf_column df c Hwf Hc) as [Hlen Hok].
  rewrite Forall_forall in Hok. apply Hok. unfold cell_at.
  apply nth_In. now rewrite Hlen.
Qed.

Lemma notnull_null_to_nan (c : cell) : notnull (null_to_nan c) = notnull c.
Proof.
  unfold null_to_nan. destruct (isnull c) eqn:E; [|reflexivity].
  unfold notnull. now rewrite E.
Qed.

Lemma eqb_not_nan (f : float) : is_nan f = false -> (f =? f)%float = true.
Proof. unfold is_nan. now destruct (f =? f)%float. Qed.

(** A cell compared with itself has not changed. *)
Lemma changed_same (d : dtype) (x : cell) :
  cell_ok d x = true -> changed d (null_to_nan x) (null_to_nan x) = false.
Proof.
  intros Hok. unfold changed. rewrite notnull_null_to_nan, orb_diag.
  unfold notnull, null_to_nan. destruct (isnull x) eqn:En.
  - apply andb_false_r.
  - rewrite andb_true_r.
    destruct (String.eqb (dtype_name d) "float64") eqn:Ed.
    + apply dtype_name_float64 in Ed. subst d.
      destruct x as [|f|z|s|b]; try discriminate. simpl in *.
      unfold isclose. rewrite (eqb_not_nan f En). now rewrite orb_true_r.
    + unfold cell_ne. apply negb_false_iff.
      destruct x as [|f|z|s|b]; simpl in *.
      * discriminate.
      * now apply eqb_not_nan.
      * apply Z.eqb_refl.
      * apply String.eqb_refl.
      * now destruct b.
Qed.

Lemma col_changed_same (df : DataFrame) (c : string) (i : nat) :
  wf_frame df -> In c (columns df) -> i < nrows df ->
  col_changed df df c i i = false.
Proof.
  intros Hwf Hc Hi. unfold col_changed. apply changed_same.
  now apply wf_cell.
Qed.

(** A table compared with itself yields three empty frames: no row in
    [diff] and [new] (all the columns) and none in [remove] (the key
    columns). *)
Theorem compare_same_empty (O : RowOrder) (R : DataFrame) (on : list string) :
  valid R R on -> has_value_column R on -> unique_keys R on ->
  compare_dfs O R R on
  = Ok (mkComparison (rows_at R (columns R) [])
                     (rows_at R (columns R) [])
                     (rows_at R on [])).
Proof.
  intros V Hv Hu. rewrite compare_dfs_closed by assumption.
  assert (HL : removed_rows O R R on = []).
  { apply no_elements. intros i Hi. apply in_lefts in Hi.
    destruct Hi as [Hi Hn]. apply Hn. exists i.
    split; [assumption | apply matches_refl]. }
  assert (HR : added_rows O R R on = []).
  { apply no_elements. intros j Hj. apply in_rights in Hj.
    destruct Hj as [Hj Hn]. apply Hn. exists j.
    split; [assumption | apply matches_refl]. }
  assert (HP : diff_pairs O R R on = []).
  { unfold diff_pairs, carried_old, carried_new. rewrite HL, HR. simpl carried.
    apply filter_none. intros [i j] Hin. apply in_boths in Hin.
    destruct Hin as (Hi & Hj & Hm). apply Hu in Hm; try assumption. subst j.
    unfold row_changed. simpl fst. simpl snd.
    apply not_true_iff_false. intros Hex. apply existsb_exists in Hex.
    destruct Hex as (c & Hc & Hch). apply filter_In in Hc.
    rewrite col_changed_same in Hch; try easy. apply (valid_old _ _ _ V). }
  rewrite HP. unfold carried_new. rewrite HL, HR. reflexivity.
Qed.

Lemma wf_frameb_sound (df : DataFrame) : wf_frameb df = true -> wf_frame df.
Proof.
  unfold wf_frameb, wf_frame. rewrite andb_true_iff, nodupb_NoDup.
  intros [H1 H2]. split; [assumption|].
  rewrite forallb_forall in H2. apply Forall_forall. intros cs Hcs.
  specialize (H2 cs Hcs). unfold wf_seriesb in H2.
  apply andb_true_iff in H2. destruct H2 as [Hl Hc].
  split; [now apply Nat.eqb_eq|].
  apply Forall_forall. now apply forallb_forall.
Qed.

Lemma dtype_eqb_eq (a b : dtype) : dtype_eqb a b = true -> a = b.
Proof. now destruct a, b. Qed.

Lemma validb_sound (old_df new_df : DataFrame) (on : list string) :
  validb old_df new_df on = true -> valid old_df new_df on.
Proof.
  unfold validb. rewrite !andb_true_iff.
  intros [[[[[[[[H1 H2] H3] H4] H5] H6] H7] H8] H9].
  rewrite forallb_forall in H3, H4, H5, H8, H9.
  constructor.
  - now apply wf_frameb_sound.
  - now apply wf_frameb_sound.
  - intros c. split; intros H; apply mem_In; auto.
  - intros c Hc. apply dtype_eqb_eq. auto.
  - repeat split.
    + destruct on; [discriminate | congruence].
    + now apply nodupb_NoDup.
    + intros k Hk. apply mem_In. auto.
  - apply Forall_forall. intros c Hc. specialize (H9 c Hc).
    unfold plain_nameb in H9. apply andb_true_iff in H9.
    destruct H9 as [Ha Hb]. apply negb_true_iff in Ha, Hb.
    split; [assumption | now apply mem_not_In].
Qed.

Lemma unique_keysb_sound (df : DataFrame) (on : list string) :
  unique_keysb df on = true -> unique_keys df on.
Proof.
  unfold unique_keysb, unique_keys. rewrite forallb_forall.
  intros H i j Hi Hj Hm.
  assert (Hin : In i (seq 0 (nrows df))) by (apply in_seq; lia).
  specialize (H i Hin). rewrite forallb_forall in H.
  assert (Hjn : In j (seq 0 (nrows df))) by (apply in_seq; lia).
  specialize (H j Hjn). rewrite Hm in H. now apply Nat.eqb_eq.
Qed.

Lemma disjoint_keysb_sound (old_df new_df : DataFrame) (on : list string) :
  disjoint_keysb old_df new_df on = true -> disjoint_keys old_df new_df on.
Proof.
  unfold disjoint_keysb, disjoint_keys. rewrite forallb_forall.
  intros H i j Hi Hj.
  assert (Hin : In i (seq 0 (nrows old_df))) by (apply in_seq; lia).
  specialize (H i Hin). rewrite forallb_forall in H.
  assert (Hjn : In j (seq 0 (nrows new_df))) by (apply in_seq; lia).
  specialize (H j Hjn). now apply negb_true_iff.
Qed.

(** With at most one row in the join, its order does not matter. *)
Lemma join_order_short (O : RowOrder) left right on (ix : indexer) :
  List.length ix <= 1 -> join_order O left right on ix = ix.
Proof.
  intros H. pose proof (join_order_perm O left right on ix) as P.
  destruct ix as [|p [|q ix]]; simpl in H; try lia.
  - apply Permutation_sym in P. now apply Permutation_nil in P.
  - apply Permutation_sym in P. now apply Permutation_length_1_inv in P.
Qed.

Lemma compare_dfs_short (O : RowOrder) (old_df new_df : DataFrame)
    (on : list string) :
  List.length (join_pairs old_df new_df on) <= 1 ->
  compare_dfs O old_df new_df on
  = compare_dfs first_appearance old_df new_df on.
Proof.
  intros H. unfold compare_dfs, merge, merge_frame, merge_body, join_rows.
  now rewrite (join_order_short O _ _ _ _ H).
Qed.

(** C1, at inputs on which it fails.  The frames [narrow] and [wide] do
    not have the same columns ([wide] has one more), yet the check of
    lines 33 and 34 lets them through and [compare_dfs] returns a result.
    With [other], which lacks a column of [narrow], the check passes too
    and the failure is the [KeyError] of line 55.  The condition
    [~np.in1d(old_df.columns, new_df.columns).any()] negates "some column
    of [old_df] is in [new_df]": the error of line 34 is raised only when
    the two frames share no column. *)
Theorem columns_check_misses_extra_column (O : RowOrder) :
  ~ same_columns narrow wide
  /\ compare_dfs O narrow wide ["id"]
     = Ok (mkComparison
             [("id", ints []); ("a", floats [])]
             [("id", ints []); ("a", floats [])]
             [("id", ints [])])
  /\ ~ same_columns narrow other
  /\ compare_dfs O narrow other ["id"] = Raise (KeyError "a").
Proof.
  split; [|split; [|split]].
  - intros H. assert (Hb : In "b" (columns wide)) by (simpl; tauto).
    apply H in Hb. simpl in Hb. intuition discriminate.
  - rewrite compare_dfs_short by (vm_compute; lia).
    vm_compute. reflexivity.
  - intros H. assert (Hb : In "b" (columns other)) by (simpl; tauto).
    apply H in Hb. simpl in Hb. intuition discriminate.
  - rewrite compare_dfs_short by (vm_compute; lia).
    vm_compute. reflexivity.
Qed.

(** When the check does fire: no column of [old_df] is a column of
    [new_df]. *)
Lemma columns_check_raises (O : RowOrder) (old_df new_df : DataFrame)
    (on : list string) :
  (forall c, In c (columns old_df) -> ~ In c (columns new_df)) ->
  compare_dfs O old_df new_df on
  = Raise (ValueError "Both DataFrames must have the same columns").
Proof.
  intros H. unfold compare_dfs.
  replace (existsb (fun c => mem c (columns new_df)) (columns old_df))
    with false; [reflexivity|].
  symmetry. apply not_true_iff_false. intros E.
  apply existsb_exists in E. destruct E as (c & Hc & Hm).
  apply mem_In in Hm. now apply (H c).
Qed.

Lemma compare_same_empty_witness :
  compare_dfs first_appearance wide wide ["id"]
  = Ok (mkComparison (rows_at wide (columns wide) [])
                     (rows_at wide (columns wide) [])
                     (rows_at wide ["id"] [])).
Proof.
  apply compare_same_empty.
  - apply validb_sound. vm_compute. reflexivity.
  - unfold has_value_column. vm_compute. discriminate.
  - apply unique_keysb_sound. vm_compute. reflexivity.
Defined.

(* ================================================================= *)
(** ** Floating-point facts used below *)
Lemma nan_eqb_l (f : float) : (nan =? f)%float = false.
Proof. rewrite FloatAxioms.eqb_spec. reflexivity. Qed.

Lemma nan_eqb_r (f : float) : (f =? nan)%float = false.
Proof.
  rewrite FloatAxioms.eqb_spec. change (Prim2SF nan) with S754_nan.
  unfold SFeqb. now destruct (Prim2SF f).
Qed.

Lemma isclose_nan_l (f : float) : isclose nan f = false.
Proof.
  unfold isclose. rewrite nan_eqb_l, orb_false_r.
  rewrite leb_spec, abs_spec, sub_spec. reflexivity.
Qed.

Lemma isclose_nan_r (f : float) : isclose f nan = false.
Proof.
  unfold isclose. rewrite nan_eqb_r, orb_false_r.
  change (is_finite nan) with false. apply andb_false_r.
Qed.

Lemma SFeqb_refl (s : spec_float) : s <> S754_nan -> SFeqb s s = true.
Proof.
  intros H. unfold SFeqb, SFcompare. destruct s as [b|b| |b m e].
  - reflexivity.
  - now destruct b.
  - congruence.
  - assert (E : Pos.compare_cont Eq m m = Eq) by apply Pos.compare_refl.
    destruct b; now rewrite Z.compare_refl, E.
Qed.

(** Rocq's floats have one [nan]. *)
Lemma is_nan_eq (f : float) : is_nan f = true -> f = nan.
Proof.
  intros H. rewrite <- (SF2Prim_Prim2SF f).
  unfold is_nan in H. rewrite FloatAxioms.eqb_spec in H.
  destruct (Prim2SF f) eqn:E; try reflexivity; exfalso;
    rewrite SFeqb_refl in H by discriminate; discriminate.
Qed.

Lemma cell_eq_nan_l (y : cell) : cell_eq (CFloat nan) y = false.
Proof.
  destruct y as [|f|z|s|b]; simpl; try reflexivity; apply nan_eqb_l.
Qed.

Lemma cell_eq_nan_r (x : cell) : cell_eq x (CFloat nan) = false.
Proof.
  destruct x as [|f|z|s|b]; simpl; try reflexivity; apply nan_eqb_r.
Qed.

(** Conversion of an integer to float64 (numpy's cast of an int64 cell):
    the rounding of [binary_normalize] never yields [nan]. *)
Lemma shr_1_nonneg (mrs : shr_record) :
  (0 <= shr_m mrs)%Z -> (0 <= shr_m (shr_1 mrs))%Z.
Proof.
  destruct mrs as [m r s]. simpl.
  destruct m as [|[p|p|]|p]; simpl; lia.
Qed.

Lemma iter_pos_nonneg (p : positive) (mrs : shr_record) :
  (0 <= shr_m mrs)%Z -> (0 <= shr_m (iter_pos shr_1 p mrs))%Z.
Proof.
  revert mrs. induction p as [p IH|p IH|]; intros mrs H; simpl.
  - apply IH, IH. now apply shr_1_nonneg.
  - now apply IH, IH.
  - now apply shr_1_nonneg.
Qed.

Lemma shr_fexp_nonneg (prec emax m e : Z) (l : location) :
  (0 <= m)%Z -> (0 <= shr_m (fst (shr_fexp prec emax m e l)))%Z.
Proof.
  intros H. unfold shr_fexp, shr.
  assert (H0 : (0 <= shr_m (shr_record_of_loc m l))%Z).
  { destruct l as [|[| |]]; exact H. }
  destruct (fexp prec emax (Zdigits2 m + e) - e)%Z; simpl; try assumption.
  now apply iter_pos_nonneg.
Qed.

Lemma round_nearest_even_nonneg (m : Z) (l : location) :
  (0 <= m)%Z -> (0 <= round_nearest_even m l)%Z.
Proof.
  intros H. destruct l as [|[| |]]; simpl; try lia.
  destruct (Z.even m); lia.
Qed.

Lemma binary_round_aux_cases (prec emax : Z) (sx : bool) (mx ex : Z)
    (lx : location) :
  (0 <= mx)%Z ->
  binary_round_aux prec emax sx mx ex lx = S754_zero sx
  \/ binary_round_aux prec emax sx mx ex lx = S754_infinity sx
  \/ exists m e, binary_round_aux prec emax sx mx ex lx = S754_finite sx m e.
Proof.
  intros H. unfold binary_round_aux.
  pose proof (shr_fexp_nonneg prec emax mx ex lx H) as H1.
  destruct (shr_fexp prec emax mx ex lx) as [mrs' e']. simpl in H1.
  pose proof (shr_fexp_nonneg prec emax
                (round_nearest_even (shr_m mrs') (loc_of_shr_record mrs'))
                e' loc_Exact
                (round_nearest_even_nonneg _ _ H1)) as H2.
  destruct (shr_fexp prec emax _ e' loc_Exact) as [mrs'' e'']. simpl in H2.
  destruct (shr_m mrs'') as [|m|m]; [now left | | lia].
  destruct (e'' <=? emax - prec)%Z; [right; right; now exists m, e''|].
  right. now left.
Qed.

Lemma binary_normalize_not_nan (prec emax m e : Z) (s : bool) :
  binary_normalize prec emax m e s <> S754_nan.
Proof.
  unfold binary_normalize, binary_round.
  destruct m as [|p|p]; [discriminate| |];
    destruct (shl_align _ _ _) as [mz ez];
    match goal with
    | |- binary_round_aux _ _ ?sx _ _ _ <> _ =>
        destruct (binary_round_aux_cases prec emax sx (Z.pos mz) ez loc_Exact
                    ltac:(lia)) as [E|[E|(m' & e' & E)]]
    end;
    rewrite E; discriminate.
Qed.

Lemma binary_normalize_opp (prec emax : Z) (p : positive) (e : Z) (s s' : bool) :
  binary_normalize prec emax (Z.neg p) e s
  = SFopp (binary_normalize prec emax (Z.pos p) e s').
Proof.
  unfold binary_normalize, binary_round.
  destruct (shl_align _ _ _) as [mz ez]. unfold binary_round_aux.
  destruct (shr_fexp prec emax (Z.pos mz) ez loc_Exact) as [mrs' e'].
  destruct (shr_fexp prec emax _ e' loc_Exact) as [mrs'' e''].
  destruct (shr_m mrs''); try reflexivity.
  now destruct (_ <=? _)%Z.
Qed.

Lemma is_nan_SF (f : float) : Prim2SF f <> S754_nan -> is_nan f = false.
Proof.
  intros H. unfold is_nan. rewrite FloatAxioms.eqb_spec.
  now rewrite SFeqb_refl.
Qed.

Lemma Z2float_nonneg (z : Z) :
  (0 <= z < 9223372036854775808)%Z ->
  Z2float z = of_uint63 (Uint63.of_Z z).
Proof.
  intros H. unfold Z2float.
  rewrite <- (SF2Prim_Prim2SF (of_uint63 (Uint63.of_Z z))).
  rewrite FloatAxioms.of_uint63_spec. f_equal. f_equal.
  rewrite Uint63.of_Z_spec. symmetry. apply Z.mod_small.
  change Uint63.wB with 9223372036854775808%Z. lia.
Qed.

(** A 64-bit integer is read as a number. *)
Lemma Z2float_not_nan (z : Z) : int64 z -> is_nan (Z2float z) = false.
Proof.
  unfold int64. intros H. destruct (Z.eq_dec z (-9223372036854775808)) as [->|Hne].
  { vm_compute. reflexivity. }
  destruct z as [|p|p].
  - vm_compute. reflexivity.
  - rewrite Z2float_nonneg by lia. apply is_nan_SF.
    rewrite FloatAxioms.of_uint63_spec. apply binary_normalize_not_nan.
  - unfold Z2float.
    rewrite (binary_normalize_opp prec emax p 0 false false).
    assert (E : binary_normalize prec emax (Z.pos p) 0 false
                = Prim2SF (of_uint63 (Uint63.of_Z (Z.pos p)))).
    { rewrite FloatAxioms.of_uint63_spec. f_equal.
      rewrite Uint63.of_Z_spec. symmetry. apply Z.mod_small.
      change Uint63.wB with 9223372036854775808%Z. lia. }
    rewrite E, <- FloatAxioms.opp_spec, SF2Prim_Prim2SF.
    apply is_nan_SF. rewrite FloatAxioms.opp_spec, <- E.
    pose proof (binary_normalize_not_nan prec emax (Z.pos p) 0 false) as Hn.
    destruct (binary_normalize prec emax (Z.pos p) 0 false);
      simpl; congruence.
Qed.

(* ================================================================= *)
(** ** Cells of the carried frames *)
Lemma cell_at_carried_key p on df k i :
  In k on -> cell_at (carried p on df) k i = cell_at df k i.
Proof. intros H. unfold cell_at. now rewrite series_at_carried_key. Qed.

Lemma cell_at_carried_value p on df v i :
  In v (columns df) -> ~ In v on ->
  cell_at (carried p on df) v i
  = if p then promote_cell (dtype_of (series_at df v)) (cell_at df v i)
    else cell_at df v i.
Proof.
  intros Hin Hk. destruct p; [|reflexivity]. unfold cell_at.
  rewrite series_at_carried_value by assumption. simpl.
  change CNone with (promote_cell (dtype_of (series_at df v)) CNone) at 1.
  apply map_nth.
Qed.

Lemma dtype_at_carried_value p on df v :
  In v (columns df) -> ~ In v on ->
  dtype_of (series_at (carried p on df) v)
  = if p then promote_dtype (dtype_of (series_at df v))
    else dtype_of (series_at df v).
Proof.
  intros Hin Hk. destruct p; [|reflexivity].
  now rewrite series_at_carried_value.
Qed.

Lemma isnull_promote d x : isnull x = true -> promote_cell d x = x.
Proof. now destruct x. Qed.

Lemma promote_cell_not_int d x : d <> Int64 -> promote_cell d x = x.
Proof. destruct x, d; simpl; congruence. Qed.

Lemma null_dtype d x :
  cell_ok d x = true -> isnull x = true -> d = Float64 \/ d = Object.
Proof. destruct d, x; simpl; try discriminate; auto. Qed.

(** A column that holds a null keeps its dtype and its cells through the
    join. *)
Lemma carried_unpromoted p on df v i d :
  In v (columns df) -> ~ In v on ->
  dtype_of (series_at df v) = d -> d = Float64 \/ d = Object ->
  dtype_of (series_at (carried p on df) v) = d
  /\ cell_at (carried p on df) v i = cell_at df v i.
Proof.
  intros Hin Hk Hd Hcase.
  rewrite dtype_at_carried_value, cell_at_carried_value by assumption.
  rewrite Hd. destruct p; [|now split].
  split.
  - now destruct Hcase as [-> | ->].
  - apply promote_cell_not_int. destruct Hcase as [-> | ->]; discriminate.
Qed.

Lemma key_eqb_exact (x y : cell) :
  exact_cell x = true -> key_eqb x y = true -> x = y.
Proof.
  destruct x as [|f|z|s|b], y as [|f'|z'|s'|b']; simpl; try discriminate;
    intros _ H.
  - apply Z.eqb_eq in H. now subst.
  - apply String.eqb_eq in H. now subst.
  - apply Bool.eqb_prop in H. now subst.
Qed.

Lemma matches_key (old_df new_df : DataFrame) (on : list string) (i j : nat)
    (k : string) :
  matches old_df new_df on i j = true -> In k on ->
  key_eqb (cell_at old_df k i) (cell_at new_df k j) = true.
Proof.
  unfold matches, keys_eqb, key_at.
  induction on as [|k' on IH]; simpl; intros H Hk; [contradiction|].
  apply andb_true_iff in H. destruct H as [H1 H2].
  destruct Hk as [->|Hk]; [assumption | now apply IH].
Qed.

(** The rows of a well-formed frame, all of them and in order, are the
    frame. *)
Lemma map_nth_all {A : Type} (l : list A) (d : A) :
  map (fun i => nth i l d) (seq 0 (List.length l)) = l.
Proof.
  induction l as [|a l IH]; simpl; [reflexivity|].
  f_equal. rewrite <- seq_shift, map_map. exact IH.
Qed.

Lemma rows_at_all (df : DataFrame) :
  wf_frame df -> rows_at df (columns df) (seq 0 (nrows df)) = df.
Proof.
  intros Hwf. unfold rows_at.
  transitivity (frame_of (columns df) (series_at df));
    [|apply frame_of_series_at, Hwf].
  apply frame_of_ext. intros c Hc.
  destruct (wf_column df c Hwf Hc) as [Hlen _].
  unfold cell_at. rewrite <- Hlen, map_nth_all. now destruct (series_at df c).
Qed.

(* ================================================================= *)
(** ** The claims on [compare_dfs] *)
Lemma removed_rows_spec O old_df new_df on i :
  In i (removed_rows O old_df new_df on)
  <-> i < nrows old_df /\ ~ matched_left old_df new_df on i.
Proof. apply in_lefts. Qed.

Lemma added_rows_spec O old_df new_df on j :
  In j (added_rows O old_df new_df on)
  <-> j < nrows new_df /\ ~ matched_right old_df new_df on j.
Proof. apply in_rights. Qed.

Lemma matched_pairs_spec O old_df new_df on i j :
  In (i, j) (matched_pairs O old_df new_df on)
  <-> i < nrows old_df /\ j < nrows new_df
      /\ matches old_df new_df on i j = true.
Proof. apply in_boths. Qed.

Lemma diff_pairs_spec O old_df new_df on i j :
  In (i, j) (diff_pairs O old_df new_df on)
  <-> i < nrows old_df /\ j < nrows new_df
      /\ matches old_df new_df on i j = true
      /\ exists c, In c (val_cols_of old_df on)
                   /\ col_changed (carried_old O old_df new_df on)
                                  (carried_new O old_df new_df on) c i j = true.
Proof.
  unfold diff_pairs. rewrite filter_In, matched_pairs_spec.
  unfold row_changed. rewrite existsb_exists. simpl fst. simpl snd.
  unfold val_cols_of at 1, carried_old at 1. rewrite columns_carried.
  fold (val_cols_of old_df on). tauto.
Qed.


(** Under exact keys the rows of [diff] are rows of the carried
    [new_df], nulls turned into [nan]. *)
Lemma diff_rows_exact (O : RowOrder) (old_df new_df : DataFrame)
    (on : list string) :
  valid old_df new_df on -> exact_keys old_df on ->
  diff_rows old_df (carried_new O old_df new_df on) on
    (diff_pairs O old_df new_df on)
  = setitem_isnull_nan
      (rows_at (carried_new O old_df new_df on) (columns old_df)
               (map snd (diff_pairs O old_df new_df on))).
Proof.
  intros V He. unfold diff_rows, rows_at.
  rewrite setitem_isnull_nan_frame_of. apply frame_of_ext. intros c Hc.
  unfold nan_series. cbn [dtype_of values]. f_equal. rewrite !map_map.
  apply map_ext_in. intros [i j] Hp. cbn [fst snd].
  destruct (mem c on) eqn:E; [|reflexivity].
  apply mem_In in E. apply diff_pairs_spec in Hp.
  destruct Hp as (Hi & Hj & Hm & _). f_equal.
  unfold carried_new. rewrite cell_at_carried_key by assumption.
  apply key_eqb_exact; [now apply He | now apply matches_key with (on := on)].
Qed.



(** The flag of a float64 column: the two values are not close, and are
    not both [nan]. *)
Lemma col_changed_float (O : RowOrder) (old_df new_df : DataFrame)
    (on : list string) (i j : nat) (c : string) (x y : float) :
  valid old_df new_df on ->
  In c (val_cols_of old_df on) ->
  dtype_of (series_at old_df c) = Float64 ->
  cell_at old_df c i = CFloat x -> cell_at new_df c j = CFloat y ->
  col_changed (carried_old O old_df new_df on)
              (carried_new O old_df new_df on) c i j
  = negb (isclose x y) && negb (is_nan x && is_nan y).
Proof.
  intros V Hc Hd Hx Hy. apply filter_In in Hc. destruct Hc as [Hc Hk].
  apply negb_true_iff, mem_not_In in Hk.
  assert (Hcn : In c (columns new_df)) by now apply (valid_columns _ _ _ V).
  pose proof (valid_dtypes _ _ _ V c Hc) as Hdn. rewrite Hd in Hdn.
  unfold col_changed, carried_old, carried_new.
  destruct (carried_unpromoted (nonempty (added_rows O old_df new_df on))
              on old_df c i Float64 Hc Hk Hd (or_introl eq_refl)) as [-> ->].
  destruct (carried_unpromoted (nonempty (removed_rows O old_df new_df on))
              on new_df c j Float64 Hcn Hk Hdn (or_introl eq_refl)) as [_ ->].
  rewrite Hx, Hy. unfold changed. rewrite !notnull_null_to_nan.
  cbn [dtype_name String.eqb Ascii.eqb Bool.eqb andb]. f_equal.
  - f_equal. unfold null_to_nan. cbn [isnull].
    destruct (is_nan x) eqn:Ex, (is_nan y) eqn:Ey; cbn [to_float];
      try apply is_nan_eq in Ex; try apply is_nan_eq in Ey; subst;
      reflexivity.
  - unfold notnull. cbn [isnull]. now rewrite negb_andb.
Qed.


(** C2, on the input where it fails.  A table made of key columns only (a
    link table) has no value column: the loop of lines 54 to 61 leaves
    [comp_list] empty and [pd.concat] raises, whatever the rows are, where
    C2 promises three empty frames.  With a value column the three frames
    are empty, as shown above for a table compared with itself. *)
Theorem compare_keys_only_raises (O : RowOrder) (old_df new_df : DataFrame)
    (on : list string) :
  valid old_df new_df on -> val_cols_of old_df on = [] ->
  compare_dfs O old_df new_df on
  = Raise (ValueError "No objects to concatenate").
Proof.
  intros V Hnil. now apply compare_dfs_run_keys_only.
Qed.

Lemma compare_keys_only_raises_witness :
  unique_keys membership ["user"; "group"]
  /\ compare_dfs first_appearance membership membership ["user"; "group"]
     = Raise (ValueError "No objects to concatenate").
Proof.
  split.
  - apply unique_keysb_sound. vm_compute. reflexivity.
  - apply compare_keys_only_raises.
    + apply validb_sound. vm_compute. reflexivity.
    + vm_compute. reflexivity.
Defined.

Lemma exact_keysb_sound (df : DataFrame) (on : list string) :
  exact_keysb df on = true -> exact_keys df on.
Proof.
  unfold exact_keysb, exact_keys. rewrite forallb_forall.
  intros H k i Hk Hi. specialize (H k Hk). rewrite forallb_forall in H.
  apply H. apply in_seq. lia.
Qed.

Example scenario_result :
  compare_dfs first_appearance scenario_old scenario_new ["id"]
  = Ok (mkComparison no_row
                     [("id", ints [3%Z]); ("val", floats [30%float])]
                     [("id", ints [2%Z])]).
Proof. vm_compute. reflexivity. Qed.






Example null_handling_example :
  compare_dfs first_appearance gauge_old gauge_new ["id"]
  = Ok (mkComparison gauge_new
          [("id", ints []); ("flow", floats []); ("site", strs [])]
          [("id", ints [])])
  /\ compare_dfs first_appearance gauge_old gauge_old ["id"]
     = Ok (mkComparison
          [("id", ints []); ("flow", floats []); ("site", strs [])]
          [("id", ints []); ("flow", floats []); ("site", strs [])]
          [("id", ints [])]).
Proof. split; vm_compute; reflexivity. Qed.


(** The substring test of line 47 (['_x' in c]) takes any label that
    contains ['_x'] for a suffixed one: with the columns [a_] and [a_xz]
    the renamed frame has two columns [a_], and line 55 fails.  This is
    why [valid] asks for plain names. *)
Example substring_test_confuses_labels :
  let t : DataFrame :=
    [("id", ints [1%Z]); ("a_", ints [5%Z]); ("a_xz", ints [5%Z])] in
  compare_dfs first_appearance t t ["id"]
  = Raise (AttributeError "'DataFrame' object has no attribute 'dtype'").
Proof. vm_compute. reflexivity. Qed.

(** An integer column is compared exactly only as long as the join does
    not promote it: with a row on each side that has no match, 100000
    against 100001 goes through [np.isclose] and is not reported. *)
Example promoted_integers_are_compared_with_tolerance :
  compare_dfs first_appearance
    [("id", ints [1; 5]%Z); ("n", ints [100000; 1]%Z)]
    [("id", ints [1; 6]%Z); ("n", ints [100001; 1]%Z)] ["id"]
  = Ok (mkComparison
          [("id", ints []); ("n", floats [])]
          [("id", ints [6%Z]); ("n", floats [1%float])]
          [("id", ints [5%Z])])
  /\ compare_dfs first_appearance
       [("id", ints [1%Z]); ("n", ints [100000%Z])]
       [("id", ints [1%Z]); ("n", ints [100001%Z])] ["id"]
     = Ok (mkComparison
             [("id", ints [1%Z]); ("n", ints [100001%Z])]
             [("id", ints []); ("n", ints [])]
             [("id", ints [])]).
Proof. split; vm_compute; reflexivity. Qed.

(* ================================================================= *)
(** ** Further properties of [compare_dfs] *)
(* ----------------------------------------------------------------- *)
(** *** Errors *)
Lemma bind_other {A B : Type} (m : result A) (k : A -> result B) (e0 : exn) :
  m <> Raise e0 -> (forall a, k a <> Raise e0) -> bind m k <> Raise e0.
Proof.
  intros Hm Hk. destruct m as [a|e]; simpl; [apply Hk|].
  intros E. apply Hm. now injection E as ->.
Qed.

Lemma select_other (df : DataFrame) (cols : list string) (msg : string) :
  select df cols <> Raise (ValueError msg).
Proof.
  induction cols as [|c cols IH]; simpl; [discriminate|].
  destruct (labelled c df); [discriminate|].
  apply bind_other; [exact IH | discriminate].
Qed.

Lemma compare_columns_other old_set new_set val_cols comp_list (msg : string) :
  compare_columns old_set new_set val_cols comp_list <> Raise (ValueError msg).
Proof.
  revert comp_list. induction val_cols as [|c rest IH]; intros comp_list; simpl;
    [discriminate|].
  apply bind_other; [|intros; apply IH].
  unfold compare_column, getitem, item_dtype, as_series, not_isclose.
  repeat (apply bind_other; [|intros]);
    repeat match goal with
           | |- context [match ?x with _ => _ end] => destruct x
           end; discriminate.
Qed.

(** The error of line 34 is raised exactly when no column of [old_df] is a
    column of [new_df]; no other step of [compare_dfs] raises it. *)
Theorem schema_error_iff (O : RowOrder) (old_df new_df : DataFrame)
    (on : list string) :
  compare_dfs O old_df new_df on
  = Raise (ValueError "Both DataFrames must have the same columns")
  <-> forall c, In c (columns old_df) -> ~ In c (columns new_df).
Proof.
  split.
  - intros H c Hc Hn. revert H. unfold compare_dfs.
    replace (existsb (fun c => mem c (columns new_df)) (columns old_df))
      with true.
    2:{ symmetry. apply existsb_exists. exists c. split; [assumption|].
        now apply mem_In. }
    cbn [negb]. cbv zeta.
    apply bind_other.
    { unfold merge. destruct on; [discriminate|].
      repeat match goal with
             | |- context [if ?x then _ else _] => destruct x
             | |- context [match ?x with _ => _ end] => destruct x
             end; discriminate. }
    intros comp1. apply bind_other.
    { apply bind_other; [|intros x; destruct x; discriminate].
      unfold getitem. now destruct (labelled _ _) as [|[? ?] [|? ?]]. }
    intros _merge. apply bind_other.
    { unfold loc. apply bind_other; [apply select_other | discriminate]. }
    intros rem1. apply bind_other.
    { unfold loc. apply bind_other; [apply select_other | discriminate]. }
    intros add1. apply bind_other.
    { unfold drop. now destruct (labelled _ _). }
    intros comp2. apply bind_other; [apply select_other|].
    intros old_set. apply bind_other; [apply select_other|].
    intros new_set. apply bind_other; [apply compare_columns_other|].
    intros comp_list. apply bind_other; [|discriminate].
    unfold concat_any. destruct comp_list; discriminate.
  - intros H. unfold compare_dfs.
    replace (existsb (fun c => mem c (columns new_df)) (columns old_df))
      with false; [reflexivity|].
    symmetry. apply not_true_iff_false. intros E.
    apply existsb_exists in E. destruct E as (c & Hc & Hm).
    apply mem_In in Hm. now apply (H c).
Qed.

(** A key column that one of the frames lacks: the join of line 39 raises
    [KeyError] with the label of such a column. *)
Theorem missing_key_raises (O : RowOrder) (old_df new_df : DataFrame)
    (on : list string) (k : string) :
  NoDup on -> NoDup (columns old_df) -> NoDup (columns new_df) ->
  (exists c, In c (columns old_df) /\ In c (columns new_df)) ->
  In k on -> ~ (In k (columns old_df) /\ In k (columns new_df)) ->
  exists k', In k' on
             /\ ~ (In k' (columns old_df) /\ In k' (columns new_df))
             /\ compare_dfs O old_df new_df on = Raise (KeyError k').
Proof.
  intros Hon Hold Hnew (c & Hc1 & Hc2) Hk Hmiss.
  destruct (find (fun k => negb (mem k (columns old_df)
                                 && mem k (columns new_df))) on)
    as [k'|] eqn:Ef.
  - exists k'. destruct (find_some _ _ Ef) as [Hin Hneg].
    split; [assumption|]. split.
    + apply negb_true_iff, andb_false_iff in Hneg.
      rewrite !mem_not_In in Hneg. tauto.
    + unfold compare_dfs.
      replace (existsb (fun c => mem c (columns new_df)) (columns old_df))
        with true.
      2:{ symmetry. apply existsb_exists. exists c. split; [assumption|].
          now apply mem_In. }
      cbn [negb]. cbv zeta. unfold merge.
      destruct on as [|k0 on']; [contradiction|].
      apply nodupb_NoDup in Hon, Hold, Hnew. rewrite Hon, Hold, Hnew.
      cbn [andb negb].
      rewrite Ef. reflexivity.
  - exfalso. apply (find_none _ _ Ef) in Hk.
    apply negb_false_iff, andb_true_iff in Hk. rewrite !mem_In in Hk. tauto.
Qed.

Lemma missing_key_raises_witness :
  exists k', In k' ["b"]
             /\ ~ (In k' (columns narrow) /\ In k' (columns wide))
             /\ compare_dfs first_appearance narrow wide ["b"]
                = Raise (KeyError k').
Proof.
  apply (missing_key_raises first_appearance narrow wide ["b"] "b").
  - apply nodupb_NoDup. reflexivity.
  - apply nodupb_NoDup. reflexivity.
  - apply nodupb_NoDup. reflexivity.
  - exists "id". simpl. tauto.
  - simpl. tauto.
  - simpl. intuition discriminate.
Defined.

Lemma bind_never {A B : Type} (m : result A) (k : A -> result B) :
  (forall a, is_ok (k a) = false) -> is_ok (bind m k) = false.
Proof. intros H. destruct m; simpl; [apply H | reflexivity]. Qed.

(** With [on] a [str] the call never returns: on two snapshots of a table
    it gets as far as line 46 and raises [AttributeError]. *)
Theorem on_as_str_raises (O : RowOrder) (old_df new_df : DataFrame)
    (on : string) :
  is_ok (compare_dfs_str O old_df new_df on) = false
  /\ (valid old_df new_df [on] ->
      compare_dfs_str O old_df new_df on
      = Raise (AttributeError "'str' object has no attribute 'copy'")).
Proof.
  split.
  - unfold compare_dfs_str. destruct (negb _); [reflexivity|]. cbv zeta.
    repeat (apply bind_never; intros ?). reflexivity.
  - intros V. unfold compare_dfs_str.
    assert (Hk : In on (columns old_df)).
    { apply (on_in_old _ _ _ V). now left. }
    replace (existsb (fun c => mem c (columns new_df)) (columns old_df))
      with true.
    2:{ symmetry. apply existsb_exists. exists on. split; [assumption|].
        now apply (old_in_new _ _ _ V). }
    cbn [negb]. cbv zeta. rewrite (merge_ok O _ _ _ V). cbn [bind].
    rewrite (run_indicator O _ _ _ V). cbn [bind].
    rewrite series_eq_str_left, series_eq_str_right, series_eq_str_both.
    rewrite (run_rem1 O _ _ _ V). cbn [bind].
    rewrite (run_add1 O _ _ _ V). cbn [bind].
    rewrite (run_drop O _ _ _ V). reflexivity.
Qed.

Lemma on_as_str_raises_witness :
  is_ok (compare_dfs_str first_appearance scenario_old scenario_new "id")
  = false
  /\ compare_dfs_str first_appearance scenario_old scenario_new "id"
     = Raise (AttributeError "'str' object has no attribute 'copy'").
Proof.
  split.
  - apply (on_as_str_raises first_appearance scenario_old scenario_new "id").
  - apply (on_as_str_raises first_appearance scenario_old scenario_new "id").
    apply validb_sound. vm_compute. reflexivity.
Defined.

(* ----------------------------------------------------------------- *)
(** *** The outputs: columns and empty inputs *)
Lemma columns_rows_at df cols idx : columns (rows_at df cols idx) = cols.
Proof. apply columns_frame_of. Qed.

Lemma nrows_rows_at df cols idx :
  cols <> [] -> nrows (rows_at df cols idx) = List.length idx.
Proof.
  destruct cols as [|c cols]; [congruence|]. intros _.
  unfold rows_at, frame_of, nrows. simpl. apply length_map.
Qed.

Lemma nrows_diff_rows old_df new_df on pairs :
  columns old_df <> [] ->
  nrows (diff_rows old_df new_df on pairs) = List.length pairs.
Proof.
  intros H. destruct old_df as [|[c s] df]; [now elim H|].
  unfold diff_rows, frame_of, nrows. simpl. apply length_map.
Qed.

Lemma columns_nonempty old_df new_df on :
  valid old_df new_df on -> columns old_df <> [].
Proof.
  intros V E. destruct (valid_on _ _ _ V) as (Hne & _ & Hincl).
  destruct on as [|k on]; [congruence|].
  specialize (Hincl k (or_introl eq_refl)). rewrite E in Hincl. contradiction.
Qed.

(** The three outputs have the columns of the docstring, whatever the
    rows: all the columns of [old_df], in its order, for [diff] and [new],
    and the key columns for [remove]. *)
Theorem output_columns (O : RowOrder) (old_df new_df : DataFrame)
    (on : list string) :
  valid old_df new_df on -> has_value_column old_df on ->
  exists out,
    compare_dfs O old_df new_df on = Ok out
    /\ columns (diff out) = columns old_df
    /\ columns (new out) = columns old_df
    /\ columns (remove out) = on.
Proof.
  intros V Hv. eexists. split; [now apply compare_dfs_closed|].
  cbn [diff new remove]. rewrite !columns_rows_at.
  unfold diff_rows. now rewrite columns_frame_of.
Qed.

Lemma removed_rows_all O old_df new_df on :
  (forall i j, i < nrows old_df -> j < nrows new_df ->
               matches old_df new_df on i j = false) ->
  Permutation (removed_rows O old_df new_df on) (seq 0 (nrows old_df))
  /\ Permutation (added_rows O old_df new_df on) (seq 0 (nrows new_df))
  /\ diff_pairs O old_df new_df on = [].
Proof.
  intros Hd. split; [|split].
  - unfold removed_rows, join_rows.
    eapply Permutation_trans; [apply (lefts_perm old_df new_df on O)|].
    rewrite filter_all; [apply Permutation_refl|].
    intros i Hi. apply in_seq in Hi. apply negb_true_iff.
    apply not_true_iff_false. intros H. apply existsb_seq in H.
    destruct H as (j & Hj & Hm). rewrite Hd in Hm by lia. discriminate.
  - unfold added_rows, join_rows.
    eapply Permutation_trans; [apply (rights_perm old_df new_df on O)|].
    rewrite filter_all; [apply Permutation_refl|].
    intros j Hj. apply in_seq in Hj. apply negb_true_iff.
    apply not_true_iff_false. intros H. apply existsb_seq in H.
    destruct H as (i & Hi & Hm). rewrite Hd in Hm by lia. discriminate.
  - apply no_elements. intros [i j] H. apply diff_pairs_spec in H.
    destruct H as (Hi & Hj & Hm & _). rewrite Hd in Hm by assumption.
    discriminate.
Qed.



Lemma output_columns_witness :
  exists out,
    compare_dfs first_appearance scenario_old scenario_new ["id"] = Ok out
    /\ columns (diff out) = columns scenario_old
    /\ columns (new out) = columns scenario_old
    /\ columns (remove out) = ["id"].
Proof.
  apply output_columns.
  - apply validb_sound. vm_compute. reflexivity.
  - unfold has_value_column. vm_compute. discriminate.
Defined.



(* ----------------------------------------------------------------- *)
(** *** How cells are compared *)
Lemma cell_ok_promote (d : dtype) (x : cell) :
  cell_ok d x = true -> cell_ok (promote_dtype d) (promote_cell d x) = true.
Proof. destruct d, x; simpl; try discriminate; auto. Qed.

Lemma isclose_refl (f : float) : is_nan f = false -> isclose f f = true.
Proof.
  intros H. unfold isclose. rewrite (eqb_not_nan f H). apply orb_true_r.
Qed.

Lemma null_to_nan_notnull (x : cell) : isnull x = false -> null_to_nan x = x.
Proof. intros H. unfold null_to_nan. now rewrite H. Qed.

(** The flag of a cell against itself, whichever side the join has
    promoted. *)
Lemma changed_same_promoted (d : dtype) (x : cell) (po pn : bool) :
  cell_ok d x = true ->
  (forall z, x = CInt z -> int64 z) ->
  changed (if po then promote_dtype d else d)
          (null_to_nan (if po then promote_cell d x else x))
          (null_to_nan (if pn then promote_cell d x else x)) = false.
Proof.
  intros Hok Hz. destruct po, pn.
  - apply changed_same. now apply cell_ok_promote.
  - destruct d, x; simpl in Hok; try discriminate;
      try (apply changed_same; assumption);
      try (apply (changed_same Object); assumption).
    pose proof (Z2float_not_nan z (Hz z eq_refl)) as Hn.
    cbn [promote_dtype promote_cell]. unfold changed.
    rewrite !null_to_nan_notnull by (simpl; first [assumption | reflexivity]).
    cbn [dtype_name to_float]. cbn [String.eqb Ascii.eqb Bool.eqb].
    now rewrite isclose_refl.
  - destruct d, x; simpl in Hok; try discriminate;
      try (apply changed_same; assumption).
    pose proof (Z2float_not_nan z (Hz z eq_refl)) as Hn.
    cbn [promote_dtype promote_cell]. unfold changed.
    rewrite !null_to_nan_notnull by (simpl; first [assumption | reflexivity]).
    cbn [dtype_name]. cbn [String.eqb Ascii.eqb Bool.eqb].
    unfold cell_ne. cbn [cell_eq to_float]. now rewrite (eqb_not_nan _ Hn).
  - now apply changed_same.
Qed.

Lemma col_changed_carried (O : RowOrder) (old_df new_df : DataFrame)
    (on : list string) (c : string) (i j : nat) :
  valid old_df new_df on -> In c (val_cols_of old_df on) ->
  col_changed (carried_old O old_df new_df on)
              (carried_new O old_df new_df on) c i j
  = changed
      (if nonempty (added_rows O old_df new_df on)
       then promote_dtype (dtype_of (series_at old_df c))
       else dtype_of (series_at old_df c))
      (null_to_nan
         (if nonempty (added_rows O old_df new_df on)
          then promote_cell (dtype_of (series_at old_df c)) (cell_at old_df c i)
          else cell_at old_df c i))
      (null_to_nan
         (if nonempty (removed_rows O old_df new_df on)
          then promote_cell (dtype_of (series_at old_df c)) (cell_at new_df c j)
          else cell_at new_df c j)).
Proof.
  intros V Hc. apply val_cols_spec in Hc. destruct Hc as [Hc Hk].
  unfold col_changed, carried_old, carried_new.
  rewrite dtype_at_carried_value by assumption.
  rewrite !cell_at_carried_value;
    try assumption; try now apply (valid_columns _ _ _ V).
  now rewrite (valid_dtypes _ _ _ V c Hc).
Qed.

(** No false alarm: a row whose values are the same cells in both tables
    is not reported, whichever columns the join has promoted. *)
Theorem equal_rows_not_in_diff (O : RowOrder) (old_df new_df : DataFrame)
    (on : list string) (i j : nat) :
  valid old_df new_df on -> i < nrows old_df ->
  (forall c, In c (val_cols_of old_df on) ->
             cell_at old_df c i = cell_at new_df c j) ->
  (forall c z, In c (val_cols_of old_df on) ->
               cell_at old_df c i = CInt z -> int64 z) ->
  ~ In (i, j) (diff_pairs O old_df new_df on).
Proof.
  intros V Hi Heq Hz Hin. apply diff_pairs_spec in Hin.
  destruct Hin as (_ & _ & _ & c & Hc & Hch).
  rewrite col_changed_carried in Hch by assumption.
  rewrite <- (Heq c Hc) in Hch.
  rewrite changed_same_promoted in Hch; [discriminate| |].
  - apply wf_cell; [apply (valid_old _ _ _ V) | | assumption].
    now apply val_cols_spec in Hc.
  - intros z. now apply Hz.
Qed.

(** How an int64 column is compared depends on the rows around it: with
    [np.isclose] on float64 as soon as a key is in [new_df] only (the old
    side of the join has holes), by float64 equality when a key is in
    [old_df] only, and as integers when every key is in both tables. *)
Theorem integers_compared_as_floats (O : RowOrder) (old_df new_df : DataFrame)
    (on : list string) (i j : nat) (c : string) (a b : Z) :
  valid old_df new_df on -> In c (val_cols_of old_df on) ->
  dtype_of (series_at old_df c) = Int64 ->
  cell_at old_df c i = CInt a -> cell_at new_df c j = CInt b ->
  int64 a -> int64 b ->
  (col_changed (carried_old O old_df new_df on)
               (carried_new O old_df new_df on) c i j
   = if nonempty (added_rows O old_df new_df on)
    then negb (isclose (Z2float a) (Z2float b))
    else if nonempty (removed_rows O old_df new_df on)
         then negb (Z2float a =? Z2float b)%float
         else negb (a =? b)%Z)
  /\ (added_rows O old_df new_df on <> [] ->
      isclose (Z2float a) (Z2float b) = true ->
      (forall c', In c' (val_cols_of old_df on) -> c' <> c ->
                  col_changed (carried_old O old_df new_df on)
                              (carried_new O old_df new_df on) c' i j = false) ->
      ~ In (i, j) (diff_pairs O old_df new_df on)).
Proof.
  intros V Hc Hd Ha Hb Hza Hzb.
  match goal with
  | |- ?F /\ _ => assert (Hflag : F)
  end;
    [|split; [exact Hflag|];
      intros Hadd Hclose Hothers Hin; apply diff_pairs_spec in Hin;
      destruct Hin as (_ & _ & _ & c' & Hc' & Hch);
      destruct (string_dec c' c) as [->|Hne];
      [rewrite Hflag in Hch;
       destruct (added_rows O old_df new_df on); [congruence|];
       cbn [nonempty] in Hch; rewrite Hclose in Hch; discriminate
      |rewrite Hothers in Hch by assumption; discriminate]].
  rewrite col_changed_carried by assumption. rewrite Hd, Ha, Hb.
  pose proof (Z2float_not_nan a Hza) as Hna.
  pose proof (Z2float_not_nan b Hzb) as Hnb.
  destruct (nonempty (added_rows _ _ _ _)),
           (nonempty (removed_rows _ _ _ _));
    cbn [promote_dtype promote_cell]; unfold changed;
    rewrite !null_to_nan_notnull by (simpl; first [assumption | reflexivity]);
    cbn [dtype_name to_float]; cbn [String.eqb Ascii.eqb Bool.eqb];
    unfold notnull; cbn [isnull]; rewrite ?Hna, ?Hnb; cbn [negb orb];
    rewrite ?andb_true_r; reflexivity.
Qed.


Lemma equal_rows_not_in_diff_witness :
  ~ In (0, 0) (diff_pairs first_appearance stock_old stock_kept ["id"]).
Proof.
  apply equal_rows_not_in_diff.
  - apply validb_sound. vm_compute. reflexivity.
  - vm_compute. lia.
  - intros c Hc. vm_compute in Hc. destruct Hc as [<-|[]]. reflexivity.
  - intros c z Hc. vm_compute in Hc. destruct Hc as [<-|[]].
    intros E. vm_compute in E. injection E as <-. unfold int64. lia.
Defined.

Lemma integers_compared_as_floats_witness :
  isclose (Z2float 100000) (Z2float 100001) = true
  /\ ~ In (0, 0) (diff_pairs first_appearance tally_old tally_new ["id"]).
Proof.
  split; [vm_compute; reflexivity|].
  apply (integers_compared_as_floats first_appearance tally_old tally_new
           ["id"] 0 0 "n" 100000 100001);
    [| | | | | | | vm_compute; discriminate | vm_compute; reflexivity
     | intros c' Hc' Hne; vm_compute in Hc'; destruct Hc' as [<-|[]];
       congruence].
  - apply validb_sound. vm_compute. reflexivity.
  - vm_compute. tauto.
  - reflexivity.
  - reflexivity.
  - reflexivity.
  - unfold int64. lia.
  - unfold int64. lia.
Defined.


(* ----------------------------------------------------------------- *)
(** *** Counting the rows, and comparing the other way round *)
Lemma key_eqb_exact_r (x y : cell) :
  exact_cell y = true -> key_eqb x y = true -> x = y.
Proof.
  destruct x as [|f|z|s|b], y as [|f'|z'|s'|b']; simpl; try discriminate;
    intros _ H.
  - apply Z.eqb_eq in H. now subst.
  - apply String.eqb_eq in H. now subst.
  - apply Bool.eqb_prop in H. now subst.
Qed.

Lemma keys_eqb_refl (l : list cell) : keys_eqb l l = true.
Proof.
  unfold keys_eqb. induction l as [|c l IH]; simpl; [reflexivity|].
  now rewrite key_eqb_refl, IH.
Qed.

Lemma matches_of_equal_keys (a b : DataFrame) (on : list string) (i j : nat) :
  key_at a on i = key_at b on j -> matches a b on i j = true.
Proof. intros E. unfold matches. rewrite E. apply keys_eqb_refl. Qed.

(** Under exact keys, two rows match when they have the same key. *)
Lemma matches_exact (old_df new_df : DataFrame) (on : list string) (i j : nat) :
  exact_keys old_df on -> i < nrows old_df ->
  matches old_df new_df on i j = true ->
  key_at old_df on i = key_at new_df on j.
Proof.
  intros He Hi Hm. unfold key_at. apply map_ext_in. intros k Hk.
  apply key_eqb_exact; [now apply He | now apply matches_key with (on := on)].
Qed.

Lemma matches_exact_r (old_df new_df : DataFrame) (on : list string) (i j : nat) :
  exact_keys old_df on -> i < nrows old_df ->
  matches new_df old_df on j i = true ->
  key_at old_df on i = key_at new_df on j.
Proof.
  intros He Hi Hm. unfold key_at. apply map_ext_in. intros k Hk. symmetry.
  apply key_eqb_exact_r; [now apply He | now apply matches_key with (on := on)].
Qed.

Lemma matches_sym (old_df new_df : DataFrame) (on : list string) (i j : nat) :
  exact_keys old_df on -> i < nrows old_df ->
  matches new_df old_df on j i = matches old_df new_df on i j.
Proof.
  intros He Hi.
  destruct (matches old_df new_df on i j) eqn:E.
  - apply matches_of_equal_keys. symmetry. now apply matches_exact.
  - apply not_true_iff_false. intros H. apply not_true_iff_false in E.
    apply E. apply matches_of_equal_keys. now apply matches_exact_r.
Qed.

Lemma matched_left_dec (a b : DataFrame) (on : list string) (i : nat) :
  matched_left a b on i \/ ~ matched_left a b on i.
Proof.
  unfold matched_left.
  destruct (existsb (matches a b on i) (seq 0 (nrows b))) eqn:E.
  - left. now apply existsb_seq in E.
  - right. intros H. apply existsb_seq in H. congruence.
Qed.

Lemma matched_right_dec (a b : DataFrame) (on : list string) (j : nat) :
  matched_right a b on j \/ ~ matched_right a b on j.
Proof.
  unfold matched_right.
  destruct (existsb (fun i => matches a b on i j) (seq 0 (nrows a))) eqn:E.
  - left. now apply existsb_seq in E.
  - right. intros H. apply existsb_seq in H. congruence.
Qed.

Section Counting.

Variable O : RowOrder.
Variables old_df new_df : DataFrame.
Variable on : list string.
Hypothesis He : exact_keys old_df on.
Hypothesis Uo : unique_keys old_df on.
Hypothesis Un : unique_keys new_df on.

Lemma old_rows_split :
  Permutation (removed_rows O old_df new_df on
               ++ map fst (matched_pairs O old_df new_df on))
              (seq 0 (nrows old_df)).
Proof.
  apply NoDup_Permutation.
  - apply NoDup_append.
    + apply NoDup_lefts.
    + apply NoDup_map_on; [apply NoDup_boths|].
      intros [i j] [i' j'] H1 H2 E. simpl in E. subst i'.
      apply matched_pairs_spec in H1, H2.
      destruct H1 as (Hi & Hj & Hm), H2 as (_ & Hj' & Hm').
      f_equal. apply Un; try assumption.
      apply matches_of_equal_keys.
      rewrite <- (matches_exact _ _ _ _ _ He Hi Hm).
      now apply matches_exact.
    + intros i Hl Hb. apply removed_rows_spec in Hl. destruct Hl as [_ Hl].
      apply in_map_iff in Hb. destruct Hb as ([i' j] & E & Hb).
      simpl in E. subst i'. apply matched_pairs_spec in Hb.
      apply Hl. exists j. tauto.
  - apply seq_NoDup.
  - intros i. rewrite in_app_iff, in_seq, removed_rows_spec, in_map_iff.
    split.
    + intros [[Hi _]|([i' j] & E & Hb)]; [lia|].
      simpl in E. subst i'. apply matched_pairs_spec in Hb. lia.
    + intros Hi.
      destruct (matched_left_dec old_df new_df on i) as [(j & Hj & Hm)|Hn].
      * right. exists (i, j). split; [reflexivity|].
        apply matched_pairs_spec. repeat split; [lia | assumption..].
      * left. split; [lia | assumption].
Qed.

Lemma new_rows_split :
  Permutation (added_rows O old_df new_df on
               ++ map snd (matched_pairs O old_df new_df on))
              (seq 0 (nrows new_df)).
Proof.
  apply NoDup_Permutation.
  - apply NoDup_append.
    + apply NoDup_rights.
    + apply NoDup_map_on; [apply NoDup_boths|].
      intros [i j] [i' j'] H1 H2 E. simpl in E. subst j'.
      apply matched_pairs_spec in H1, H2.
      destruct H1 as (Hi & Hj & Hm), H2 as (Hi' & _ & Hm').
      f_equal. apply Uo; try assumption.
      apply matches_of_equal_keys.
      rewrite (matches_exact _ _ _ _ _ He Hi Hm).
      symmetry. now apply matches_exact.
    + intros j Hl Hb. apply added_rows_spec in Hl. destruct Hl as [_ Hl].
      apply in_map_iff in Hb. destruct Hb as ([i j'] & E & Hb).
      simpl in E. subst j'. apply matched_pairs_spec in Hb.
      apply Hl. exists i. tauto.
  - apply seq_NoDup.
  - intros j. rewrite in_app_iff, in_seq, added_rows_spec, in_map_iff.
    split.
    + intros [[Hj _]|([i j'] & E & Hb)]; [lia|].
      simpl in E. subst j'. apply matched_pairs_spec in Hb. lia.
    + intros Hj.
      destruct (matched_right_dec old_df new_df on j) as [(i & Hi & Hm)|Hn].
      * right. exists (i, j). split; [reflexivity|].
        apply matched_pairs_spec. repeat split; [assumption | lia | assumption].
      * left. split; [lia | assumption].
Qed.

End Counting.


Lemma valid_sym (old_df new_df : DataFrame) (on : list string) :
  valid old_df new_df on -> valid new_df old_df on.
Proof.
  intros V. destruct V as [Ho Hn Hc Hd (Hne & Hnd & Hincl) Hp].
  constructor; try assumption.
  - intros c. symmetry. apply Hc.
  - intros c Hcn. symmetry. apply Hd. now apply Hc.
  - split; [assumption|]. split; [assumption|].
    intros k Hk. apply Hc. now apply Hincl.
  - rewrite Forall_forall in *. intros c Hcn. apply Hp. now apply Hc.
Qed.

Lemma rows_at_carried_keys p on df cols idx :
  incl cols on ->
  rows_at (carried p on df) cols idx = rows_at df cols idx.
Proof.
  intros Hincl. unfold rows_at. apply frame_of_ext. intros k Hk.
  rewrite series_at_carried_key by now apply Hincl. f_equal.
  apply map_ext. intros i. apply cell_at_carried_key. now apply Hincl.
Qed.

Lemma select_rows_at df cols sub idx :
  NoDup cols -> incl sub cols ->
  select (rows_at df cols idx) sub = Ok (rows_at df sub idx).
Proof.
  intros Hnd Hincl. rewrite select_distinct.
  - f_equal. unfold rows_at. apply frame_of_ext. intros k Hk.
    rewrite series_at_frame_of by now apply Hincl. reflexivity.
  - unfold rows_at. now rewrite columns_frame_of.
  - unfold rows_at. now rewrite columns_frame_of.
Qed.




(* ================================================================= *)
(** ** [compare_dfs] and the objects of its caller *)
Section StoreFacts.
Import Store.

Example scenario_on_heap :
  fst (compare_dfs_heap first_appearance 0 1 2 scenario_heap) = Ok (17, 7, 5)
  /\ firstn 3 (snd (compare_dfs_heap first_appearance 0 1 2 scenario_heap))
     = scenario_heap.
Proof. split; vm_compute; reflexivity. Qed.

Lemma keeps_ret n {A : Type} (a : A) (Q : A -> Prop) :
  Q a -> keeps n (ret a) Q.
Proof.
  intros HQ h Hn. simpl. repeat split; try assumption.
  intros a' E. injection E as <-. exact HQ.
Qed.

Lemma keeps_raise n {A : Type} (e : exn) (Q : A -> Prop) :
  keeps n (raise e) Q.
Proof. intros h Hn. simpl. repeat split; try assumption. discriminate. Qed.

Lemma keeps_lift n {A : Type} (r : result A) :
  keeps n (lift r) (fun _ => True).
Proof. intros h Hn. simpl. repeat split; assumption. Qed.

Lemma keeps_weaken n {A : Type} (m : M A) (Q Q' : A -> Prop) :
  keeps n m Q -> (forall a, Q a -> Q' a) -> keeps n m Q'.
Proof.
  intros Hm HQ h Hn. destruct (Hm h Hn) as (H1 & H2 & H3).
  repeat split; try assumption. intros a E. apply HQ. now apply H3.
Qed.

Lemma keeps_bind n {A B : Type} (m : M A) (k : A -> M B)
    (Q : A -> Prop) (Q' : B -> Prop) :
  keeps n m Q -> (forall a, Q a -> keeps n (k a) Q') ->
  keeps n (bind m k) Q'.
Proof.
  intros Hm Hk h Hn. unfold bind. destruct (Hm h Hn) as (H1 & H2 & H3).
  destruct (m h) as [[a|e] h'] eqn:E; simpl in *.
  - destruct (Hk a (H3 a eq_refl) h' H1) as (K1 & K2 & K3).
    repeat split; try assumption. now rewrite K2.
  - repeat split; try assumption. discriminate.
Qed.

Lemma length_update {A : Type} (n : nat) (x : A) (l : list A) :
  List.length (update n x l) = List.length l.
Proof.
  revert n. induction l as [|a l IH]; intros [|n]; simpl; auto.
Qed.

Lemma firstn_update {A : Type} (n r : nat) (x : A) (l : list A) :
  n <= r -> firstn n (update r x l) = firstn n l.
Proof.
  revert n r. induction l as [|a l IH]; intros n r H.
  - now destruct r.
  - destruct r as [|r].
    + now replace n with 0 by lia.
    + destruct n as [|n]; simpl; [reflexivity|].
      f_equal. apply IH. lia.
Qed.

Lemma keeps_alloc n (o : obj) : keeps n (alloc o) (fun r => n <= r).
Proof.
  intros h Hn. unfold alloc. simpl. rewrite length_app. simpl.
  repeat split.
  - lia.
  - rewrite firstn_app. replace (n - List.length h) with 0 by lia.
    simpl. apply app_nil_r.
  - intros a E. injection E as <-. exact Hn.
Qed.

Lemma keeps_load n (r : ref) : keeps n (load r) (fun _ => True).
Proof.
  intros h Hn. unfold load. destruct (nth_error h r); simpl; auto.
Qed.

Lemma keeps_store n (r : ref) (o : obj) :
  n <= r -> keeps n (store r o) (fun _ => True).
Proof.
  intros Hr h Hn. unfold store.
  destruct (Nat.ltb r (List.length h)); simpl; auto.
  rewrite length_update. repeat split; auto. now apply firstn_update.
Qed.

Lemma keeps_load_frame n r : keeps n (load_frame r) (fun _ => True).
Proof.
  unfold load_frame. eapply keeps_bind; [apply keeps_load|].
  intros [df|l] _; [now apply keeps_ret | apply keeps_raise].
Qed.

Lemma keeps_load_list n r : keeps n (load_list r) (fun _ => True).
Proof.
  unfold load_list. eapply keeps_bind; [apply keeps_load|].
  intros [df|l] _; [apply keeps_raise | now apply keeps_ret].
Qed.

Lemma keeps_lift_then n {A B : Type} (r : result A) (k : A -> M B)
    (Q : B -> Prop) :
  (forall a, keeps n (k a) Q) -> keeps n (bind (lift r) k) Q.
Proof.
  intros H. eapply keeps_bind; [apply keeps_lift|]. intros a _. apply H.
Qed.

Lemma keeps_frame_then n {B : Type} r (k : DataFrame -> M B) (Q : B -> Prop) :
  (forall df, keeps n (k df) Q) -> keeps n (bind (load_frame r) k) Q.
Proof.
  intros H. eapply keeps_bind; [apply keeps_load_frame|]. intros a _. apply H.
Qed.

Lemma keeps_list_then n {B : Type} r (k : list string -> M B) (Q : B -> Prop) :
  (forall l, keeps n (k l) Q) -> keeps n (bind (load_list r) k) Q.
Proof.
  intros H. eapply keeps_bind; [apply keeps_load_list|]. intros a _. apply H.
Qed.

(** The operations that build a new object return a reference beyond
    the first [n] objects. *)
Lemma keeps_pd_merge n O l r on : keeps n (pd_merge O l r on) (fun x => n <= x).
Proof.
  unfold pd_merge. apply keeps_frame_then. intros L.
  apply keeps_frame_then. intros R. apply keeps_list_then. intros K.
  apply keeps_lift_then. intros df. apply keeps_alloc.
Qed.

Lemma keeps_copy n r : keeps n (copy r) (fun x => n <= x).
Proof. unfold copy. apply keeps_frame_then. intros df. apply keeps_alloc. Qed.

Lemma keeps_loc_new n r mask cols :
  keeps n (loc_new r mask cols) (fun x => n <= x).
Proof.
  unfold loc_new. apply keeps_frame_then. intros df.
  apply keeps_lift_then. intros sub. apply keeps_alloc.
Qed.

Lemma keeps_getitem_mask n r mask :
  keeps n (getitem_mask r mask) (fun x => n <= x).
Proof.
  unfold getitem_mask. apply keeps_frame_then. intros df. apply keeps_alloc.
Qed.

Lemma keeps_getitem_cols n r cols :
  keeps n (getitem_cols r cols) (fun x => n <= x).
Proof.
  unfold getitem_cols. apply keeps_frame_then. intros df.
  apply keeps_lift_then. intros sub. apply keeps_alloc.
Qed.

Lemma keeps_drop_new n r label :
  keeps n (drop_new r label) (fun x => n <= x).
Proof.
  unfold drop_new. apply keeps_frame_then. intros df.
  apply keeps_lift_then. intros sub. apply keeps_alloc.
Qed.

Lemma keeps_list_copy n r : keeps n (list_copy r) (fun x => n <= x).
Proof.
  unfold list_copy. apply keeps_list_then. intros l. apply keeps_alloc.
Qed.

Lemma keeps_indicator_of n r : keeps n (indicator_of r) (fun _ => True).
Proof.
  unfold indicator_of. apply keeps_frame_then. intros df. apply keeps_lift.
Qed.

Lemma keeps_columns_of n r : keeps n (columns_of r) (fun _ => True).
Proof.
  unfold columns_of. apply keeps_frame_then. intros df. now apply keeps_ret.
Qed.

(** The updates in place are harmless on an object beyond the first
    [n]. *)
Lemma keeps_setitem_isnull n r :
  n <= r -> keeps n (setitem_isnull r) (fun _ => True).
Proof.
  intros H. unfold setitem_isnull. apply keeps_frame_then. intros df.
  now apply keeps_store.
Qed.

Lemma keeps_rename_inplace n r m :
  n <= r -> keeps n (rename_inplace r m) (fun _ => True).
Proof.
  intros H. unfold rename_inplace. apply keeps_frame_then. intros df.
  now apply keeps_store.
Qed.

Lemma keeps_list_extend n r xs :
  n <= r -> keeps n (list_extend r xs) (fun _ => True).
Proof.
  intros H. unfold list_extend. apply keeps_list_then. intros l.
  now apply keeps_store.
Qed.

(** Every update in place of [compare_dfs] is on an object that
    [compare_dfs] has built. *)
Lemma keeps_compare_dfs n O old_df new_df on :
  keeps n (compare_dfs_heap O old_df new_df on) (fun _ => True).
Proof.
  unfold compare_dfs_heap.
  eapply keeps_bind; [apply keeps_columns_of|]. intros old_columns _.
  eapply keeps_bind; [apply keeps_columns_of|]. intros new_columns _.
  destruct (negb _); [apply keeps_raise|].
  apply keeps_list_then. intros on_items. cbv zeta.
  eapply keeps_bind; [apply keeps_pd_merge|]. intros comp1 Hcomp1.
  eapply keeps_bind.
  { eapply keeps_bind; [apply keeps_indicator_of|]. intros m _.
    apply keeps_list_then. intros k.
    eapply keeps_bind; [apply keeps_loc_new|]. intros t _.
    apply keeps_copy. }
  intros rem1 Hrem1.
  eapply keeps_bind.
  { eapply keeps_bind; [apply keeps_indicator_of|]. intros m _.
    eapply keeps_bind; [apply keeps_loc_new|]. intros t _.
    apply keeps_copy. }
  intros add1 Hadd1.
  eapply keeps_bind.
  { eapply keeps_bind; [apply keeps_indicator_of|]. intros m _.
    eapply keeps_bind; [apply keeps_getitem_mask|]. intros t _.
    eapply keeps_bind; [apply keeps_drop_new|]. intros t' _.
    apply keeps_copy. }
  intros comp2 Hcomp2.
  eapply keeps_bind; [now apply keeps_setitem_isnull|]. intros _ _.
  eapply keeps_bind; [apply keeps_list_copy|]. intros old_cols Hold_cols.
  eapply keeps_bind; [apply keeps_columns_of|]. intros comp2_columns _.
  eapply keeps_bind; [now apply keeps_list_extend|]. intros _ _.
  eapply keeps_bind.
  { apply keeps_list_then. intros k.
    eapply keeps_bind; [apply keeps_getitem_cols|]. intros t _.
    apply keeps_copy. }
  intros old_set Hold_set.
  eapply keeps_bind; [now apply keeps_rename_inplace|]. intros _ _.
  eapply keeps_bind.
  { eapply keeps_bind; [apply keeps_getitem_cols|]. intros t _.
    apply keeps_copy. }
  intros new_set Hnew_set.
  eapply keeps_bind.
  { apply keeps_frame_then. intros o. apply keeps_frame_then. intros nw.
    apply keeps_lift. }
  intros comp_list _.
  apply keeps_lift_then. intros comp_index.
  eapply keeps_bind.
  { eapply keeps_bind; [apply keeps_getitem_mask|]. intros t _.
    apply keeps_copy. }
  intros diff_set _. now apply keeps_ret.
Qed.

(** Whatever the heap and the references, the objects that were there
    before the call are there after it, unchanged. *)
Theorem compare_dfs_frame (O : RowOrder) (old_df new_df on : ref) (h : heap) :
  firstn (List.length h) (snd (compare_dfs_heap O old_df new_df on h)) = h.
Proof.
  destruct (keeps_compare_dfs (List.length h) O old_df new_df on h
              (Nat.le_refl _)) as (_ & H & _).
  rewrite H. apply firstn_all.
Qed.

(* ----------------------------------------------------------------- *)
(** *** Running on a heap [h ++ ext]: the caller's objects, then the
    objects built so far *)
Lemma run_load_old (h ext : heap) (r : ref) (o : obj) :
  nth_error h r = Some o -> load r (h ++ ext) = (Ok o, h ++ ext).
Proof.
  intros H. unfold load. rewrite nth_error_app1.
  - now rewrite H.
  - apply nth_error_Some. congruence.
Qed.

Lemma run_load_new (h ext : heap) (i : nat) :
  load (List.length h + i) (h ++ ext)
  = match nth_error ext i with
    | Some o => (Ok o, h ++ ext)
    | None => (Raise (OutsideModel "no such object"), h ++ ext)
    end.
Proof.
  unfold load. rewrite nth_error_app2 by lia.
  now replace (List.length h + i - List.length h) with i by lia.
Qed.

Lemma run_alloc (h ext : heap) (o : obj) :
  alloc o (h ++ ext)
  = (Ok (List.length h + List.length ext), h ++ (ext ++ [o])).
Proof. unfold alloc. now rewrite length_app, app_assoc. Qed.

Lemma update_app_r {A : Type} (l1 l2 : list A) (i : nat) (x : A) :
  update (List.length l1 + i) x (l1 ++ l2) = l1 ++ update i x l2.
Proof.
  induction l1 as [|a l1 IH]; simpl; [reflexivity|]. now rewrite IH.
Qed.

Lemma run_store_new (h ext : heap) (i : nat) (o : obj) :
  store (List.length h + i) o (h ++ ext)
  = if Nat.ltb i (List.length ext) then (Ok tt, h ++ update i o ext)
    else (Raise (OutsideModel "no such object"), h ++ ext).
Proof.
  unfold store. rewrite length_app, update_app_r.
  destruct (Nat.ltb_spec i (List.length ext));
    destruct (Nat.ltb_spec (List.length h + i)
                (List.length h + List.length ext)); try lia; reflexivity.
Qed.

End StoreFacts.

(* ----------------------------------------------------------------- *)
(** *** The heap version computes the value version *)
Lemma nth_error_new {A : Type} (h ext : list A) (i : nat) :
  nth_error (h ++ ext) (List.length h + i) = nth_error ext i.
Proof.
  rewrite nth_error_app2 by lia.
  now replace (List.length h + i - List.length h) with i by lia.
Qed.

Ltac heap_step Ho Hn Hk :=
  first [ rewrite (run_load_old _ _ _ _ Ho)
        | rewrite (run_load_old _ _ _ _ Hn)
        | rewrite (run_load_old _ _ _ _ Hk)
        | rewrite run_load_new
        | rewrite run_alloc
        | rewrite run_store_new ];
  cbn [nth_error List.length app Store.update Nat.ltb Nat.leb fst snd];
  cbv beta iota.

Ltac heap_raises :=
  cbn [fst snd]; eexists; split; reflexivity.

Ltac heap_case X :=
  destruct X as [?|?] eqn:?; [|heap_raises].

(** The run of the heap version, in step with the value version: it
    raises where the value version raises, and otherwise its three
    references hold the three frames of the value version.  The heap only
    grows. *)
Lemma compare_dfs_heap_run (O : RowOrder) (h : Store.heap)
    (old_df new_df on : Store.ref) (Old New : DataFrame) (K : list string) :
  nth_error h old_df = Some (Store.OFrame Old) ->
  nth_error h new_df = Some (Store.OFrame New) ->
  nth_error h on = Some (Store.OList K) ->
  exists ext,
    snd (Store.compare_dfs_heap O old_df new_df on (h ++ [])) = h ++ ext
    /\ match compare_dfs O Old New K with
       | Ok out =>
           exists d a r,
             fst (Store.compare_dfs_heap O old_df new_df on (h ++ []))
             = Ok (d, a, r)
             /\ nth_error (h ++ ext) d = Some (Store.OFrame (diff out))
             /\ nth_error (h ++ ext) a = Some (Store.OFrame (new out))
             /\ nth_error (h ++ ext) r = Some (Store.OFrame (remove out))
       | Raise e =>
           fst (Store.compare_dfs_heap O old_df new_df on (h ++ [])) = Raise e
       end.
Proof.
  intros Ho Hn Hk.
  unfold compare_dfs, Store.compare_dfs_heap.
  unfold Store.columns_of, Store.pd_merge, Store.indicator_of, Store.loc_new,
    Store.copy, Store.getitem_mask, Store.drop_new, Store.setitem_isnull,
    Store.list_copy, Store.list_extend, Store.getitem_cols,
    Store.rename_inplace, Store.load_frame, Store.load_list,
    Store.bind, Store.ret, Store.raise, Store.lift, frame_indicator, bind.
  cbv beta.
  repeat heap_step Ho Hn Hk.
  destruct (negb (existsb (fun c => mem c (columns New)) (columns Old))).
  { heap_raises. }
  cbv zeta.
  repeat heap_step Ho Hn Hk.
  heap_case (merge O Old New K).
  repeat heap_step Ho Hn Hk.
  destruct (getitem a "_merge") as [x|e] eqn:Eg; [|heap_raises].
  destruct (as_series x) as [m|e] eqn:Es; [|heap_raises].
  repeat heap_step Ho Hn Hk.
  heap_case (loc a (series_eq_str m "left_only") K).
  repeat first [ heap_step Ho Hn Hk
               | progress (rewrite ?Eg, ?Es; cbv beta iota) ].
  heap_case (loc a (series_eq_str m "right_only") (columns Old)).
  repeat first [ heap_step Ho Hn Hk
               | progress (rewrite ?Eg, ?Es; cbv beta iota) ].
  heap_case (drop (mask_rows a (series_eq_str m "both")) "_merge").
  repeat heap_step Ho Hn Hk.
  match goal with
  | |- context [select ?df (K ++ ?ks)] => heap_case (select df (K ++ ks))
  end.
  repeat heap_step Ho Hn Hk.
  match goal with
  | |- context [select ?df (columns Old)] => heap_case (select df (columns Old))
  end.
  repeat heap_step Ho Hn Hk.
  match goal with
  | |- context [compare_columns ?o ?n ?v ?acc] =>
      heap_case (compare_columns o n v acc)
  end.
  match goal with
  | |- context [concat_any ?l] => heap_case (concat_any l)
  end.
  repeat heap_step Ho Hn Hk.
  eexists. split; [reflexivity|].
  do 3 eexists. split; [reflexivity|].
  rewrite !nth_error_new. repeat split.
Qed.

(** C7.  [compare_dfs] leaves the heap of its caller as it found it:
    after the call [old_df], [new_df] and [on] (and every other object
    that was there) hold what they held, the updates in place of lines
    44, 48 and 50 being on frames and lists that [compare_dfs] built
    itself.  And the result depends on the contents of the three inputs
    only: it is what [compare_dfs] computes on them as values. *)
Theorem compare_dfs_is_pure (O : RowOrder) (h : Store.heap)
    (old_df new_df on : Store.ref) (Old New : DataFrame) (K : list string) :
  nth_error h old_df = Some (Store.OFrame Old) ->
  nth_error h new_df = Some (Store.OFrame New) ->
  nth_error h on = Some (Store.OList K) ->
  exists ext,
    let run := Store.compare_dfs_heap O old_df new_df on h in
    snd run = h ++ ext
    /\ nth_error (snd run) old_df = Some (Store.OFrame Old)
    /\ nth_error (snd run) new_df = Some (Store.OFrame New)
    /\ nth_error (snd run) on = Some (Store.OList K)
    /\ match compare_dfs O Old New K with
       | Ok out =>
           exists d a r,
             fst run = Ok (d, a, r)
             /\ nth_error (snd run) d = Some (Store.OFrame (diff out))
             /\ nth_error (snd run) a = Some (Store.OFrame (new out))
             /\ nth_error (snd run) r = Some (Store.OFrame (remove out))
       | Raise e => fst run = Raise e
       end.
Proof.
  intros Ho Hn Hk.
  destruct (compare_dfs_heap_run O h old_df new_df on Old New K Ho Hn Hk)
    as (ext & Hheap & Hres).
  rewrite app_nil_r in Hheap, Hres.
  exists ext. cbv zeta. rewrite Hheap.
  assert (Hkeep : forall r o, nth_error h r = Some o ->
                              nth_error (h ++ ext) r = Some o).
  { intros r o H. rewrite nth_error_app1; [assumption|].
    apply nth_error_Some. congruence. }
  repeat split; auto.
Qed.

Lemma compare_dfs_is_pure_witness :
  exists ext,
    let run := Store.compare_dfs_heap first_appearance 0 1 2
                 Store.scenario_heap in
    snd run = Store.scenario_heap ++ ext
    /\ nth_error (snd run) 0 = Some (Store.OFrame scenario_old)
    /\ nth_error (snd run) 1 = Some (Store.OFrame scenario_new)
    /\ nth_error (snd run) 2 = Some (Store.OList ["id"])
    /\ match compare_dfs first_appearance scenario_old scenario_new ["id"] with
       | Ok out =>
           exists d a r,
             fst run = Ok (d, a, r)
             /\ nth_error (snd run) d = Some (Store.OFrame (diff out))
             /\ nth_error (snd run) a = Some (Store.OFrame (new out))
             /\ nth_error (snd run) r = Some (Store.OFrame (remove out))
       | Raise e => fst run = Raise e
       end.
Proof.
  apply (compare_dfs_is_pure first_appearance Store.scenario_heap 0 1 2
           scenario_old scenario_new ["id"]); reflexivity.
Defined.

(* ----------------------------------------------------------------- *)
(** *** The frames of the result are new objects *)
Ltac heap_none := cbn [fst snd]; intros; discriminate.

Ltac heap_split X := destruct X as [?|?] eqn:?; [|heap_none].

Lemma compare_dfs_heap_refs (O : RowOrder) (h : Store.heap)
    (old_df new_df on : Store.ref) (Old New : DataFrame) (K : list string) :
  nth_error h old_df = Some (Store.OFrame Old) ->
  nth_error h new_df = Some (Store.OFrame New) ->
  nth_error h on = Some (Store.OList K) ->
  forall d a r,
    fst (Store.compare_dfs_heap O old_df new_df on (h ++ [])) = Ok (d, a, r) ->
    List.length h <= d /\ List.length h <= a /\ List.length h <= r
    /\ d <> a /\ d <> r /\ a <> r.
Proof.
  intros Ho Hn Hk.
  unfold Store.compare_dfs_heap.
  unfold Store.columns_of, Store.pd_merge, Store.indicator_of, Store.loc_new,
    Store.copy, Store.getitem_mask, Store.drop_new, Store.setitem_isnull,
    Store.list_copy, Store.list_extend, Store.getitem_cols,
    Store.rename_inplace, Store.load_frame, Store.load_list,
    Store.bind, Store.ret, Store.raise, Store.lift, frame_indicator, bind.
  cbv beta.
  repeat heap_step Ho Hn Hk.
  destruct (negb (existsb (fun c => mem c (columns New)) (columns Old))).
  { heap_none. }
  cbv zeta.
  repeat heap_step Ho Hn Hk.
  heap_split (merge O Old New K).
  repeat heap_step Ho Hn Hk.
  destruct (getitem a "_merge") as [x|e] eqn:Eg; [|heap_none].
  destruct (as_series x) as [m|e] eqn:Es; [|heap_none].
  repeat heap_step Ho Hn Hk.
  heap_split (loc a (series_eq_str m "left_only") K).
  repeat first [ heap_step Ho Hn Hk
               | progress (rewrite ?Eg, ?Es; cbv beta iota) ].
  heap_split (loc a (series_eq_str m "right_only") (columns Old)).
  repeat first [ heap_step Ho Hn Hk
               | progress (rewrite ?Eg, ?Es; cbv beta iota) ].
  heap_split (drop (mask_rows a (series_eq_str m "both")) "_merge").
  repeat heap_step Ho Hn Hk.
  match goal with
  | |- context [select ?df (K ++ ?ks)] => heap_split (select df (K ++ ks))
  end.
  repeat heap_step Ho Hn Hk.
  match goal with
  | |- context [select ?df (columns Old)] => heap_split (select df (columns Old))
  end.
  repeat heap_step Ho Hn Hk.
  match goal with
  | |- context [compare_columns ?o ?n ?v ?acc] =>
      heap_split (compare_columns o n v acc)
  end.
  match goal with
  | |- context [concat_any ?l] => heap_split (concat_any l)
  end.
  repeat heap_step Ho Hn Hk.
  intros rd ra rr E. injection E as <- <- <-. lia.
Qed.

(** The three frames of the result are new objects: none of them is an
    object the caller had, and no two of them are the same object. *)
Theorem results_are_fresh (O : RowOrder) (h : Store.heap)
    (old_df new_df on : Store.ref) (Old New : DataFrame) (K : list string)
    (d a r : Store.ref) :
  nth_error h old_df = Some (Store.OFrame Old) ->
  nth_error h new_df = Some (Store.OFrame New) ->
  nth_error h on = Some (Store.OList K) ->
  fst (Store.compare_dfs_heap O old_df new_df on h) = Ok (d, a, r) ->
  List.length h <= d /\ List.length h <= a /\ List.length h <= r
  /\ d <> a /\ d <> r /\ a <> r.
Proof.
  intros Ho Hn Hk E.
  apply (compare_dfs_heap_refs O h old_df new_df on Old New K Ho Hn Hk).
  now rewrite app_nil_r.
Qed.

Lemma results_are_fresh_witness :
  fst (Store.compare_dfs_heap first_appearance 0 1 2 Store.scenario_heap)
  = Ok (17, 7, 5)
  /\ (List.length Store.scenario_heap <= 17
      /\ List.length Store.scenario_heap <= 7
      /\ List.length Store.scenario_heap <= 5
      /\ 17 <> 7 /\ 17 <> 5 /\ 7 <> 5).
Proof.
  split; [vm_compute; reflexivity|].
  apply (results_are_fresh first_appearance Store.scenario_heap 0 1 2
           scenario_old scenario_new ["id"]); vm_compute; reflexivity.
Defined.

(* ================================================================= *)
(** ** [create_engine]: the ladder of drivers *)
Section EngineFacts.
Import Engine.

Lemma append_assoc (a b c : string) :
  ((a ++ b) ++ c)%string = (a ++ (b ++ c))%string.
Proof. induction a as [|ch a IH]; simpl; [reflexivity | now rewrite IH]. Qed.

(** C9, amended.  When no driver connects, [create_engine] does not raise:
    it prints its advice and returns the engine made for the last driver
    of the list, which does not connect. *)
Theorem exhausted_drivers_return_last_engine (w : World)
    (server database : string) (username password : option string) :
  no_driver_connects w -> engines_are_made w ->
  exists unopened,
    create_engine w "mssql" server database username password
    = (Ok unopened, ["Install a proper ODBC mssql driver"])
    /\ url unopened
       = ("mssql+pyodbc://" ++ credentials username password
          ++ server ++ "/" ++ database
          ++ "?driver=SQL+Server+Native+Client+11.0")%string
    /\ exists err, connect w unopened = Raise err.
Proof.
  intros [Hpy Hconn] Hmake.
  exists (mkEngine ("mssql+pyodbc://" ++ credentials username password
                    ++ server ++ "/" ++ database
                    ++ "?driver=SQL+Server+Native+Client+11.0")%string).
  split; [|split; [reflexivity | apply Hconn]].
  unfold create_engine. cbn [String.eqb Ascii.eqb Bool.eqb].
  rewrite Hpy. unfold rung. rewrite !Hmake.
  repeat match goal with
         | |- context [connect w ?e] =>
             let err := fresh "err" in
             let E := fresh "E" in
             destruct (Hconn e) as [err E]; rewrite E; clear E
         end.
  f_equal. f_equal. f_equal.
  now rewrite !append_assoc.
Qed.

Lemma exhausted_drivers_return_last_engine_witness :
  exists unopened,
    create_engine bare_machine "mssql" "SQL2012PROD03" "LowFlows" None None
    = (Ok unopened, ["Install a proper ODBC mssql driver"])
    /\ url unopened
       = ("mssql+pyodbc://" ++ credentials None None
          ++ "SQL2012PROD03" ++ "/" ++ "LowFlows"
          ++ "?driver=SQL+Server+Native+Client+11.0")%string
    /\ exists err, connect bare_machine unopened = Raise err.
Proof.
  apply exhausted_drivers_return_last_engine.
  - split; [reflexivity|]. intros e. eexists. reflexivity.
  - intros u. reflexivity.
Defined.

(** C9 as stated fails: on a machine where no driver connects the call
    returns an engine, as it does on success, and not a failure; the
    engine is the one of the last driver tried and does not connect; and
    where [sqlalchemy.create_engine] itself raises for the ODBC URLs (no
    [pyodbc]), [create_engine] raises too. *)
Lemma exhausted_drivers_counterexample :
  no_driver_connects bare_machine
  /\ create_engine bare_machine "mssql" "SQL2012PROD03" "LowFlows" None None
     = (Ok (mkEngine
              "mssql+pyodbc://SQL2012PROD03/LowFlows?driver=SQL+Server+Native+Client+11.0"),
        ["Install a proper ODBC mssql driver"])
  /\ connect bare_machine
       (mkEngine
          "mssql+pyodbc://SQL2012PROD03/LowFlows?driver=SQL+Server+Native+Client+11.0")
     = Raise (OperationalError "Data source name not found")
  /\ (let no_pyodbc :=
        mkWorld false (fun _ => Raise (ImportError "No module named 'pyodbc'"))
                (fun _ => Raise (OperationalError "Data source name not found")) in
      no_driver_connects no_pyodbc
      /\ create_engine no_pyodbc "mssql" "SQL2012PROD03" "LowFlows" None None
         = (Raise (ImportError "No module named 'pyodbc'"), [])).
Proof.
  split; [|split; [|split; [|split]]].
  - split; [reflexivity|]. intros e. eexists. reflexivity.
  - vm_compute. reflexivity.
  - reflexivity.
  - split; [reflexivity|]. intros e. eexists. reflexivity.
  - vm_compute. reflexivity.
Qed.

(** The other backends make one engine and never connect; [sqlite] ignores
    the server and the credentials; an unknown backend leaves [engine]
    unbound. *)
Lemma create_engine_sqlite (w : World) server database username password :
  create_engine w "sqlite" server database username password
  = (sa_create_engine w "sqlite:///:memory:", []).
Proof. reflexivity. Qed.

Lemma create_engine_unknown (w : World) server database username password :
  create_engine w "db2" server database username password
  = (Raise (UnboundLocalError "engine"), []).
Proof. reflexivity. Qed.

(** A [db_type] outside the five of the docstring: no branch binds
    [engine], and line 151 raises. *)
Theorem unknown_backend_unbound (w : World) (db_type server database : string)
    (username password : option string) :
  ~ In db_type ["mssql"; "postgresql"; "oracle"; "mysql"; "sqlite"] ->
  create_engine w db_type server database username password
  = (Raise (UnboundLocalError "engine"), []).
Proof.
  intros H. unfold create_engine.
  repeat match goal with
         | |- context [String.eqb db_type ?s] =>
             destruct (String.eqb_spec db_type s) as [->|_];
             [exfalso; apply H; simpl; tauto|]
         end.
  reflexivity.
Qed.

Lemma unknown_backend_unbound_witness :
  create_engine bare_machine "db2" "SQL2012PROD03" "LowFlows" None None
  = (Raise (UnboundLocalError "engine"), []).
Proof.
  apply unknown_backend_unbound. simpl. intuition discriminate.
Defined.

(** The ladder stops at the first driver that connects. *)
Theorem first_connecting_driver_wins (w : World)
    (server database : string) (username password : option string)
    (tried rest : list string) (driver : string) :
  let base := ("mssql+pyodbc://" ++ credentials username password
               ++ server ++ "/" ++ database)%string in
  pymssql_installed w = false -> engines_are_made w ->
  odbc_drivers = tried ++ driver :: rest ->
  (forall d, In d tried ->
             exists err, connect w (mkEngine (base ++ d)) = Raise err) ->
  connect w (mkEngine (base ++ driver)) = Ok tt ->
  create_engine w "mssql" server database username password
  = (Ok (mkEngine (base ++ driver)), []).
Proof.
  intros base Hpy Hmake Hlist Hfail Hok.
  unfold create_engine. cbn [String.eqb Ascii.eqb Bool.eqb].
  rewrite Hpy. fold base. unfold rung. rewrite !Hmake.
  unfold odbc_drivers in Hlist.
  repeat (destruct tried as [|? tried];
          [injection Hlist as <- <-; rewrite ?Hok; reflexivity
          |injection Hlist as <- Hlist;
           let err := fresh "err" in
           let E := fresh "E" in
           destruct (Hfail _ (or_introl eq_refl)) as [err E]; rewrite E;
           assert (Hfail' : forall d, In d tried ->
                     exists err, connect w (mkEngine (base ++ d)) = Raise err)
             by (intros d Hd; apply Hfail; now right);
           clear Hfail E; rename Hfail' into Hfail]).
  destruct tried; discriminate.
Qed.

Lemma first_connecting_driver_wins_witness :
  create_engine (machine_with "ODBC+Driver+13+for+SQL+Server")
    "mssql" "SQL2012PROD03" "LowFlows" None None
  = (Ok (mkEngine
           (("mssql+pyodbc://" ++ credentials None None
             ++ "SQL2012PROD03" ++ "/" ++ "LowFlows")
            ++ "?driver=ODBC+Driver+13+for+SQL+Server")%string), []).
Proof.
  apply (first_connecting_driver_wins
           (machine_with "ODBC+Driver+13+for+SQL+Server")
           "SQL2012PROD03" "LowFlows" None None
           ["?driver=ODBC+Driver+17+for+SQL+Server";
            "?driver=ODBC+Driver+13.1+for+SQL+Server"]
           ["?driver=ODBC+Driver+11+for+SQL+Server";
            "?driver=SQL+Server+Native+Client+11.0"]).
  - reflexivity.
  - intros u. reflexivity.
  - reflexivity.
  - intros d [<-|[<-|[]]]; eexists; vm_compute; reflexivity.
  - vm_compute. reflexivity.
Defined.

(** Outside the ladder of ODBC drivers no connection is opened and
    nothing is printed: the outcome does not depend on what [connect]
    would do. *)
Theorem connects_only_in_the_ladder (pymssql : bool)
    (sa : string -> result engine) (connect1 connect2 : engine -> result unit)
    (db_type server database : string) (username password : option string) :
  db_type <> "mssql"
  \/ (pymssql = true
      /\ exists e, sa ("mssql+pymssql://" ++ credentials username password
                       ++ server ++ "/" ++ database)%string = Ok e) ->
  create_engine (mkWorld pymssql sa connect1) db_type server database
    username password
  = create_engine (mkWorld pymssql sa connect2) db_type server database
      username password
  /\ snd (create_engine (mkWorld pymssql sa connect1) db_type server database
            username password) = [].
Proof.
  intros H. unfold create_engine. cbn [pymssql_installed sa_create_engine].
  destruct (String.eqb_spec db_type "mssql") as [->|Hne].
  - destruct H as [H|(-> & e & E)]; [congruence|].
    rewrite E. split; reflexivity.
  - repeat match goal with
           | |- context [String.eqb db_type ?s] => destruct (String.eqb db_type s)
           end; split; reflexivity.
Qed.

Lemma connects_only_in_the_ladder_witness :
  create_engine (mkWorld false (fun u => Ok (mkEngine u))
                   (fun _ => Ok tt)) "postgresql" "db.example.org" "flows"
    (Some "reader") (Some "secret")
  = create_engine (mkWorld false (fun u => Ok (mkEngine u))
                     (fun _ => Raise (OperationalError "no route to host")))
      "postgresql" "db.example.org" "flows" (Some "reader") (Some "secret")
  /\ snd (create_engine (mkWorld false (fun u => Ok (mkEngine u))
                           (fun _ => Ok tt)) "postgresql" "db.example.org"
            "flows" (Some "reader") (Some "secret")) = [].
Proof.
  apply connects_only_in_the_ladder. left. discriminate.
Defined.

(** In the ladder [sqlalchemy.create_engine] is called outside the [try]
    blocks: its exception leaves [create_engine], whatever drivers come
    next. *)
Theorem engine_error_leaves_the_ladder (w : World)
    (server database : string) (username password : option string)
    (tried rest : list string) (driver : string) (e : exn) :
  let base := ("mssql+pyodbc://" ++ credentials username password
               ++ server ++ "/" ++ database)%string in
  pymssql_installed w = false ->
  odbc_drivers = tried ++ driver :: rest ->
  (forall d, In d tried ->
             sa_create_engine w (base ++ d) = Ok (mkEngine (base ++ d))
             /\ exists err, connect w (mkEngine (base ++ d)) = Raise err) ->
  sa_create_engine w (base ++ driver) = Raise e ->
  create_engine w "mssql" server database username password = (Raise e, []).
Proof.
  intros base Hpy Hlist Hfail Hraise.
  unfold create_engine. cbn [String.eqb Ascii.eqb Bool.eqb].
  rewrite Hpy. fold base. unfold rung.
  unfold odbc_drivers in Hlist.
  repeat (destruct tried as [|? tried];
          [injection Hlist as <- <-; rewrite ?Hraise; reflexivity
          |injection Hlist as <- Hlist;
           let err := fresh "err" in
           let E := fresh "E" in
           let M := fresh "M" in
           destruct (Hfail _ (or_introl eq_refl)) as [M [err E]];
           rewrite M, E;
           assert (Hfail' : forall d, In d tried ->
                     sa_create_engine w (base ++ d) = Ok (mkEngine (base ++ d))
                     /\ exists err, connect w (mkEngine (base ++ d)) = Raise err)
             by (intros d Hd; apply Hfail; now right);
           clear Hfail E M; rename Hfail' into Hfail]).
  destruct tried; discriminate.
Qed.

Lemma engine_error_leaves_the_ladder_witness :
  create_engine machine_without_pyodbc
    "mssql" "SQL2012PROD03" "LowFlows" None None
  = (Raise (ImportError "No module named 'pyodbc'"), []).
Proof.
  apply (engine_error_leaves_the_ladder machine_without_pyodbc
           "SQL2012PROD03" "LowFlows" None None []
           ["?driver=ODBC+Driver+13.1+for+SQL+Server";
            "?driver=ODBC+Driver+13+for+SQL+Server";
            "?driver=ODBC+Driver+11+for+SQL+Server";
            "?driver=SQL+Server+Native+Client+11.0"]
           "?driver=ODBC+Driver+17+for+SQL+Server").
  - reflexivity.
  - reflexivity.
  - intros d [].
  - vm_compute. reflexivity.
Defined.

End EngineFacts.

(* ================================================================= *)
(** ** [save_df]: the extension and the files *)
Section SaveFacts.
Import Save.

Example splitext_examples :
  splitext "data/flow.csv" = ("data/flow", ".csv")
  /\ splitext "archive.tar.h5" = ("archive.tar", ".h5")
  /\ splitext ".bashrc" = (".bashrc", "")
  /\ splitext "out.d/table" = ("out.d/table", "").
Proof. repeat split. Qed.

(** C10.  Whatever the frame, the path and the flags, [save_df] raises
    [AttributeError] at line 163, and the files are as they were. *)
Theorem save_df_always_raises (df : DataFrame) (path_str : string)
    (index header : bool) (fs : filesystem) :
  save_df df path_str index header fs
  = (Raise (AttributeError "module 'os' has no attribute 'path_str'"), fs).
Proof. reflexivity. Qed.




End SaveFacts.
